(** * A shallow embedding of the slippistats replay decoder and stat detectors

    The Python package [slippistats] decodes Slippi replay files of Super Smash
    Bros. Melee and runs event detectors over the decoded frames.  This file
    embeds the parts of it that the specification's claims are about:

    - [Start.SlippiVersion.__ge__]           (event.py)
    - [End._parse]                           (event.py)
    - [Frame.Port.Data.Post._parse]          (event.py)
    - [_parse_events] and [_parse_event]    (parse.py) and [Game._add_frame] (game.py)
    - [StatsComputer.wavedash_compute]       (stats/stats_computer.py)
    - [TakeHitData._find_valid_sdi]          (stats/stat_types.py)
    - [ComputerBase.get_player]              (stats/computer.py)

    Python exceptions are values of [PyExc]; a Python function that may raise
    returns a [result].  Bytes are [Byte.byte]; the payload of a binary record is
    a [list byte] read front to back, the way [io.BytesIO.read] does.  A 32-bit
    float read with [unpack_float] is kept as its IEEE-754 bit pattern, since
    none of the claims settled here computes with such a value. *)

From Stdlib Require Import ZArith List String Ascii Bool Lia.
Import ListNotations.
Open Scope Z_scope.

(** ** Python runtime: exceptions, results, list indexing *)

Inductive PyExc : Type :=
| ValueError (msg : string)
| IndexError
| AttributeError
| TypeError
| UnboundLocalError
| StructError
| IdentifierError (msg : string)
| NotImplementedError.

Inductive result (A : Type) : Type :=
| Ok (a : A)
| Err (e : PyExc).
Arguments Ok {A} a.
Arguments Err {A} e.

Definition bind {A B} (m : result A) (k : A -> result B) : result B :=
  match m with
  | Ok a => k a
  | Err e => Err e
  end.

Notation "x <- m ;; k" := (bind m (fun x => k))
  (at level 61, m at next level, right associativity).

(** [l[i]] for a Python list: negative indices count from the end, anything
    else out of range raises [IndexError]. *)
Definition py_getitem {A} (l : list A) (i : Z) : result A :=
  let n := Z.of_nat (List.length l) in
  let j := if i <? 0 then n + i else i in
  if (0 <=? j) && (j <? n) then
    match nth_error l (Z.to_nat j) with
    | Some x => Ok x
    | None => Err IndexError
    end
  else Err IndexError.

Fixpoint list_set {A} (l : list A) (n : nat) (x : A) : list A :=
  match l, n with
  | [], _ => []
  | _ :: t, O => x :: t
  | y :: t, S n' => y :: list_set t n' x
  end.

(** [l[i] = x] for a Python list, with the same index rules as [py_getitem]. *)
Definition py_setitem {A} (l : list A) (i : Z) (x : A) : result (list A) :=
  let n := Z.of_nat (List.length l) in
  let j := if i <? 0 then n + i else i in
  if (0 <=? j) && (j <? n) then Ok (list_set l (Z.to_nat j) x)
  else Err IndexError.

(** ** Byte readers: [stream.read] and the [struct] unpackers of util.py *)

Definition byte_val (b : Byte.byte) : Z := Z.of_nat (Byte.to_nat b).

(** Big-endian value of a byte string. *)
Definition be_value (bs : list Byte.byte) : Z :=
  fold_left (fun acc b => acc * 256 + byte_val b) bs 0.

(** [struct.Struct(fmt).unpack] of a fixed-size format: raises [struct.error]
    unless given exactly [n] bytes. *)
Definition unpack_fixed (n : nat) (bs : list Byte.byte) : result Z :=
  if Nat.eqb (List.length bs) n then Ok (be_value bs) else Err StructError.

(** [stream.read(n)] never fails: it returns what is left, at most [n] bytes. *)
Definition read (n : nat) (s : list Byte.byte) : list Byte.byte * list Byte.byte :=
  (firstn n s, skipn n s).

(** A reader reads from the front of the stream and returns the rest. *)
Definition Reader (A : Type) : Type := list Byte.byte -> result (A * list Byte.byte).

Definition read_unpack (n : nat) : Reader Z :=
  fun s => let (bs, s') := read n s in
           v <- unpack_fixed n bs ;; Ok (v, s').

Definition unpack_uint8 : Reader Z := read_unpack 1.
Definition unpack_uint16 : Reader Z := read_unpack 2.
Definition unpack_uint32 : Reader Z := read_unpack 4.
(** [unpack_float]: the 4 bytes of a big-endian float, as their bit pattern. *)
Definition unpack_float : Reader Z := read_unpack 4.
(** [unpack_bool] ([">?"]): any nonzero byte is [True]. *)
Definition unpack_bool : Reader bool :=
  fun s => p <- read_unpack 1 s ;; Ok (negb (fst p =? 0), snd p).

(** ** [Start.SlippiVersion] (event.py) *)

Module Version.

Record SlippiVersion := mkVersion { major : Z; minor : Z; revision : Z }.

(** The argument of [__ge__]: another version, a Python sequence, or a string. *)
Inductive GeArg :=
| VArg (v : SlippiVersion)
| SeqArg (xs : list Z)
| StrArg (s : string).

(** The boolean expression shared by the [Sequence] and the [SlippiVersion]
    branches of [__ge__], written with the same [or]/[and] structure. *)
Definition ge_expr (self : SlippiVersion) (major' minor' revision' : Z) : bool :=
  (major self >? major')
  || ((major self =? major') && (minor self >? minor'))
  || ((minor self =? minor') && (revision self >=? revision')).

Definition ge (self : SlippiVersion) (other : GeArg) : result bool :=
  match other with
  | SeqArg [ma; mi; re] => Ok (ge_expr self ma mi re)
  | SeqArg _ => Err (ValueError "Incorrect Sequence for SlippiVersion")
  | VArg o => Ok (ge_expr self (major o) (minor o) (revision o))
  (* a [str] is a [Sequence]: three characters unpack, and [int > str]
     raises [TypeError]; any other length raises [ValueError] *)
  | StrArg s =>
      if Nat.eqb (String.length s) 3 then Err TypeError
      else Err (ValueError "Incorrect Sequence for SlippiVersion")
  end.

(** [__lt__] is [not __ge__]. *)
Definition lt (self : SlippiVersion) (other : GeArg) : result bool :=
  b <- ge self other ;; Ok (negb b).

(** The specification's order: lexicographic comparison of the triples. *)
Definition lex_ge_spec (a b : SlippiVersion) : bool :=
  (major a >? major b)
  || ((major a =? major b) && (minor a >? minor b))
  || ((major a =? major b) && (minor a =? minor b) && (revision a >=? revision b)).

End Version.

(** ** [End] (event.py) *)

Module GameEnd.

Inductive Method := INCONCLUSIVE | TIME | GAME | CONCLUSIVE | NO_CONTEST.

(** [End.Method(value)]: the [IntEnum] lookup raises [ValueError] outside its
    domain ([util.IntEnum._missing_]). *)
Definition Method_of (v : Z) : result Method :=
  if v =? 0 then Ok INCONCLUSIVE
  else if v =? 1 then Ok TIME
  else if v =? 2 then Ok GAME
  else if v =? 3 then Ok CONCLUSIVE
  else if v =? 7 then Ok NO_CONTEST
  else Err (ValueError "is not a valid Method").

Record End := mkEnd {
  method : Method;
  lras_initiator : option Z;
  player_placements : option (list Z)
}.

(** [End._parse].  Each [try] catches only [struct.error], the one exception
    [unpack_uint8] raises on a short read. *)
Definition _parse (s0 : list Byte.byte) : result End :=
  p0 <- unpack_uint8 s0 ;;
  let (method, s1) := p0 in
  (* v2.0.0 *)
  let (lras_initiator, s2) :=
    match unpack_uint8 s1 with
    | Ok (lras, s') => (if lras <? 4 then Some lras else None, s')
    | Err _ => (None, skipn 1 s1)
    end in
  (* v3.13.0 *)
  let player_placements :=
    match unpack_uint8 s2 with
    | Ok (p1, s3) =>
        match unpack_uint8 s3 with
        | Ok (p2, s4) =>
            match unpack_uint8 s4 with
            | Ok (p3, s5) =>
                match unpack_uint8 s5 with
                | Ok (p4, _) => Some [p1; p2; p3; p4]
                | Err _ => None
                end
            | Err _ => None
            end
        | Err _ => None
        end
    | Err _ => None
    end in
  m <- Method_of method ;;
  Ok (mkEnd m lras_initiator player_placements).

End GameEnd.

(** ** [Frame.Port.Data.Post._parse] (event.py) *)

Module Post.

(** The enumerations this parser calls live in [slippistats/enums/state.py],
    which is not part of the sources; [Direction] and [LCancel] follow the
    classes of the same names in the sibling package [slippi/event.py], and
    the five flag fields are [IntFlag]s, which keep any byte. *)

(** [Direction(float)]: an [IntEnum] with [LEFT = -1], [DOWN = 0], [RIGHT = 1],
    looked up with the float read from the payload: only the floats equal to
    one of these values are found ([0x3F800000] is [1.0], [0xBF800000] is
    [-1.0], [0x00000000] and [0x80000000] are the two zeros). *)
Definition Direction_of_float (bits : Z) : result Z :=
  if bits =? 0x3F800000 then Ok 1
  else if bits =? 0xBF800000 then Ok (-1)
  else if (bits =? 0) || (bits =? 0x80000000) then Ok 0
  else Err (ValueError "is not a valid Direction").

(** [LCancel(value)]: [NOT_APPLICABLE = 0], [SUCCESS = 1], [FAILURE = 2]. *)
Definition LCancel_of (v : Z) : result Z :=
  if (0 <=? v) && (v <=? 2) then Ok v else Err (ValueError "is not a valid LCancel").

(** Modelled from the spec: [get_character_state] (enums/state.py, not in the
    sources).  Unknown enumerated values are never fatal and the raw integer is
    kept (section 4.1.6, [BadEnum]); the state is kept as its integer. *)
Definition get_character_state (state character : Z) : Z := state.

(** [try_enum] returns the enum member or, failing that, the raw value; both
    are represented by the integer. *)
Definition try_enum (v : Z) : Z := v.

Record Post := mkPost {
  character : Z;
  state : Z;
  position : Z * Z;
  facing_direction : Z;
  percent : Z;
  shield_health : Z;
  stocks_remaining : Z;
  most_recent_hit : Z;
  last_hit_by : option Z;
  combo_count : Z;
  state_age : option Z;
  flags : option (list Z);
  misc_timer : option Z;
  is_airborne : option bool;
  last_ground_id : option Z;
  jumps_remaining : option Z;
  l_cancel : option Z;
  hurtbox_status : option Z;
  self_ground_speed : option (Z * Z);
  self_air_speed : option (Z * Z);
  knockback_speed : option (Z * Z);
  hitlag_remaining : option Z;
  animation_index : option Z
}.

(** The fields read before the first version-gated block. *)
Record Base := mkBase {
  b_character : Z; b_state : Z; b_position : Z * Z; b_direction : Z;
  b_damage : Z; b_shield_health : Z; b_last_attack_landed : Z;
  b_combo_count : Z; b_last_hit_by : Z; b_stocks : Z
}.

Definition read_base : Reader Base := fun s =>
  p <- unpack_uint8 s ;; let (character, s) := p in
  p <- unpack_uint16 s ;; let (st, s) := p in
  p <- unpack_float s ;; let (x, s) := p in
  p <- unpack_float s ;; let (y, s) := p in
  p <- unpack_float s ;; let (dir, s) := p in
  direction <- Direction_of_float dir ;;
  p <- unpack_float s ;; let (damage, s) := p in
  p <- unpack_float s ;; let (shield_health, s) := p in
  p <- unpack_uint8 s ;; let (last_attack, s) := p in
  p <- unpack_uint8 s ;; let (combo_count, s) := p in
  p <- unpack_uint8 s ;; let (last_hit_by, s) := p in
  p <- unpack_uint8 s ;; let (stocks, s) := p in
  Ok (mkBase (try_enum character) (get_character_state st character) (x, y) direction
             damage shield_health (try_enum last_attack) combo_count last_hit_by stocks, s).

(** The v2.0.0 block: five flag bytes, misc timer, airborne, ground id, jumps,
    L-cancel status. *)
Record Block2 := mkBlock2 {
  b2_flags : list Z; b2_misc_timer : Z; b2_airborne : bool;
  b2_last_ground_id : Z; b2_jumps : Z; b2_l_cancel : Z
}.

Definition read_block2 : Reader Block2 := fun s =>
  p <- unpack_uint8 s ;; let (f1, s) := p in
  p <- unpack_uint8 s ;; let (f2, s) := p in
  p <- unpack_uint8 s ;; let (f3, s) := p in
  p <- unpack_uint8 s ;; let (f4, s) := p in
  p <- unpack_uint8 s ;; let (f5, s) := p in
  p <- unpack_float s ;; let (misc_timer, s) := p in
  p <- unpack_bool s ;; let (airborne, s) := p in
  p <- unpack_uint16 s ;; let (last_ground_id, s) := p in
  p <- unpack_uint8 s ;; let (jumps, s) := p in
  p <- unpack_uint8 s ;; let (lc, s) := p in
  l_cancel <- LCancel_of lc ;;
  Ok (mkBlock2 [f1; f2; f3; f4; f5] misc_timer airborne last_ground_id jumps l_cancel, s).

(** The v3.5.0 block: self air speed, knockback speed, self ground speed (whose
    y component is the air speed's). *)
Definition read_speeds : Reader ((Z * Z) * (Z * Z) * (Z * Z)) := fun s =>
  p <- unpack_float s ;; let (ax, s) := p in
  p <- unpack_float s ;; let (ay, s) := p in
  p <- unpack_float s ;; let (kx, s) := p in
  p <- unpack_float s ;; let (ky, s) := p in
  p <- unpack_float s ;; let (gx, s) := p in
  Ok (((ax, ay), (kx, ky), (gx, ay)), s).

(** [cls(...)] with the keyword arguments each [return] of [_parse] passes;
    the ones it leaves out take the constructor's default [None]. *)
Definition build (b : Base) (state_age : option Z) (b2 : option Block2)
    (hurtbox : option Z) (speeds : option ((Z * Z) * (Z * Z) * (Z * Z)))
    (hitlag : option Z) (anim : option Z) : Post :=
  mkPost (b_character b) (b_state b) (b_position b) (b_direction b)
    (b_damage b) (b_shield_health b) (b_stocks b) (b_last_attack_landed b)
    (if b_last_hit_by b <? 4 then Some (b_last_hit_by b) else None)
    (b_combo_count b) state_age
    (option_map b2_flags b2) (option_map b2_misc_timer b2)
    (option_map b2_airborne b2) (option_map b2_last_ground_id b2)
    (option_map b2_jumps b2) (option_map b2_l_cancel b2)
    hurtbox
    (option_map (fun sp => snd sp) speeds)
    (option_map (fun sp => fst (fst sp)) speeds)
    (option_map (fun sp => snd (fst sp)) speeds)
    hitlag anim.

(** [try: ... except struct.error: return ...]: a [struct.error] selects the
    handler, any other exception propagates. *)
Definition try_struct {A B} (r : result A) (handler : result B) (k : A -> result B)
  : result B :=
  match r with
  | Ok a => k a
  | Err StructError => handler
  | Err e => Err e
  end.

(** [Post._parse].  The handler of the first [try] passes [state_age=state_age]
    while the assignment to [state_age] is the statement that failed, so the
    name is still unbound there: reading the local raises
    [UnboundLocalError].  [state_age_local] is that local before the block. *)
Definition _parse (s : list Byte.byte) : result Post :=
  p <- read_base s ;; let (b, s) := p in
  (* v0.2.0 *)
  let state_age_local : option Z := None in
  try_struct (unpack_float s)
    (match state_age_local with
     | Some sa => Ok (build b (Some sa) None None None None None)
     | None => Err UnboundLocalError
     end)
    (fun p => let (state_age, s) := p in
  (* v2.0.0 *)
  try_struct (read_block2 s)
    (Ok (build b (Some state_age) None None None None None))
    (fun p => let (b2, s) := p in
  (* v2.1.0 *)
  try_struct (unpack_uint8 s)
    (Ok (build b (Some state_age) (Some b2) None None None None))
    (fun p => let (hurtbox_status, s) := p in
  (* v3.5.0 *)
  try_struct (read_speeds s)
    (Ok (build b (Some state_age) (Some b2) (Some hurtbox_status) None None None))
    (fun p => let (speeds, s) := p in
  (* v3.8.0 *)
  try_struct (unpack_float s)
    (Ok (build b (Some state_age) (Some b2) (Some hurtbox_status) (Some speeds) None None))
    (fun p => let (hitlag_remaining, s) := p in
  (* v3.11.0 *)
  try_struct (unpack_uint32 s)
    (Ok (build b (Some state_age) (Some b2) (Some hurtbox_status) (Some speeds)
               (Some hitlag_remaining) None))
    (fun p => let (animation_index, _) := p in
  Ok (build b (Some state_age) (Some b2) (Some hurtbox_status) (Some speeds)
            (Some hitlag_remaining) (Some animation_index)))))))).

End Post.

(** ** [Frame] (event.py) and [Game._add_frame] (game.py) *)

Module Frames.

Definition FIRST_FRAME_INDEX : Z := -123.

(** [Frame.Port.Data]: the raw pre/post payloads, decoded lazily later. *)
Record Data := mkData { _pre : option (list Byte.byte); _post : option (list Byte.byte) }.

(** [Frame.Port]. *)
Record PortFrame := mkPort { leader : Data; follower : option Data }.

(** [Frame.Start]: the random seed at the start of the frame. *)
Record FrameStart := mkFrameStart { random_seed : Z }.

Section Reconstruction.

(** The decoded [Frame.Item] record; [_add_frame] does not look into it. *)
Variable ItemRec : Type.

(** What [Frame.items] holds: [_item_frame] appends [Frame.Item] records, and
    [_start_frame] appends [Frame.Start] records to the same list. *)
Inductive ItemsEntry :=
| ItemEntry (it : ItemRec)
| StartEntry (st : FrameStart).

Record Frame := mkFrame {
  index : Z;
  ports : list (option PortFrame);
  items : list ItemsEntry;
  start : option FrameStart;
  end_ : option unit
}.

(** [Frame(index)]. *)
Definition Frame_new (i : Z) : Frame := mkFrame i [None; None; None; None] [] None None.

(** [Frame._finalize] turns [ports] and [items] into tuples: the same
    elements. *)
Definition _finalize (f : Frame) : Frame := f.

(** [Game._add_frame], the [Frame] handler of [Game]. *)
Definition _add_frame (frames : list Frame) (frame : Frame) : result (list Frame) :=
  let idx := index frame - FIRST_FRAME_INDEX in
  let count := Z.of_nat (List.length frames) in
  if idx =? count then Ok (frames ++ [frame])
  else if idx <? count then (* rollback *) py_setitem frames idx frame
  else Err (ValueError "missing frames").

End Reconstruction.

End Frames.

(** ** [StatsComputer.wavedash_compute] (stats/stats_computer.py) *)

Module Wavedash.

(** Action-state numbers, as in [ActionState] of the sibling package
    [slippi/enums/state.py] ([slippistats/enums/state.py] is not part of the
    sources). *)
Definition KNEE_BEND : Z := 24.
Definition LAND_FALL_SPECIAL : Z := 43.

(** The members of [Buttons.Physical] (controller.py), in class order. *)
Definition Physical_START := 2 ^ 12.
Definition Physical_Y := 2 ^ 11.
Definition Physical_X := 2 ^ 10.
Definition Physical_B := 2 ^ 9.
Definition Physical_A := 2 ^ 8.
Definition Physical_L := 2 ^ 6.
Definition Physical_R := 2 ^ 5.
Definition Physical_Z := 2 ^ 4.
Definition Physical_members : list Z :=
  [Physical_START; Physical_Y; Physical_X; Physical_B; Physical_A; Physical_L;
   Physical_R; Physical_Z; 2 ^ 3; 2 ^ 2; 2 ^ 1; 2 ^ 0; 0].

(** [Buttons.Physical.pressed]: the members whose bit is set. *)
Definition pressed (physical : Z) : list Z :=
  filter (fun button => negb (Z.land physical button =? 0)) Physical_members.

(** Python's [x in list]. *)
Definition py_in (x : Z) (l : list Z) : bool := existsb (Z.eqb x) l.

(** The fields of a player's [Frame.Port.Data] that the detector reads:
    [pre.joystick], [pre.buttons.physical], [post.state],
    [post.stocks_remaining]. *)
Record PlayerFrame := mkPlayerFrame {
  pre_joystick : Z * Z;
  pre_physical : Z;
  post_state : Z;
  post_stocks_remaining : Z
}.

(** [WavedashData].  Its constructor also derives [angle] and [direction] from
    the stick with floating-point trigonometry; those two fields are not
    modelled.  The constructor sets [waveland = True]. *)
Record WavedashData := mkWavedashData {
  frame_index : Z;
  stocks_remaining : Z;
  trigger_frame : Z;
  stick : Z * Z;
  airdodge_frames : Z;
  waveland : bool
}.

Definition WavedashData_new (frame_index stocks : Z) (trigger_frame : Z)
    (stick : Z * Z) (airdodge_frames : Z) : WavedashData :=
  mkWavedashData frame_index stocks trigger_frame stick airdodge_frames true.

(** [for k in range(0, 5)]: look for [KNEE_BEND] at [player.frames[i - j - k]];
    on the first one set [trigger_frame = k], [waveland = False] and [break]. *)
Fixpoint knee_bend_loop (frames : list PlayerFrame) (i j : Z) (ks : list Z)
    (w : WavedashData) : result WavedashData :=
  match ks with
  | [] => Ok w
  | k :: ks' =>
      past_frame <- py_getitem frames (i - j - k) ;;
      if post_state past_frame =? KNEE_BEND then
        Ok (mkWavedashData (frame_index w) (stocks_remaining w) k (stick w)
                           (airdodge_frames w) false)
      else knee_bend_loop frames i j ks' w
  end.

(** [for j in range(0, 5)]: every frame with R or L among its pressed
    physical buttons builds a fresh [WavedashData] into
    [self._wavedash_state]; the loop has no [break]. *)
Fixpoint trigger_loop (frames : list PlayerFrame) (i : Z) (player_frame : PlayerFrame)
    (js : list Z) (state : option WavedashData) : result (option WavedashData) :=
  match js with
  | [] => Ok state
  | j :: js' =>
      past_frame <- py_getitem frames (i - j) ;;
      let p := pressed (pre_physical past_frame) in
      if py_in Physical_R p || py_in Physical_L p then
        w <- knee_bend_loop frames i j [0; 1; 2; 3; 4]
               (WavedashData_new i (post_stocks_remaining player_frame) 0
                                 (pre_joystick player_frame) j) ;;
        trigger_loop frames i player_frame js' (Some w)
      else trigger_loop frames i player_frame js' state
  end.

(** The [for i, player_frame in enumerate(player.frames)] loop.  [prev] is the
    local [prev_player_state] ([None] while unbound, it is only assigned when
    [i > 0]); [state] is [self._wavedash_state]; [out] is
    [player.stats.wavedashes]. *)
Fixpoint frame_loop (frames : list PlayerFrame) (i : Z) (rest : list PlayerFrame)
    (prev : option Z) (state : option WavedashData) (out : list WavedashData)
  : result (option WavedashData * list WavedashData) :=
  match rest with
  | [] => Ok (state, out)
  | player_frame :: rest' =>
      let player_state := post_state player_frame in
      prev' <- (if i >? 0 then
                  prev_player_frame <- py_getitem frames (i - 1) ;;
                  Ok (Some (post_state prev_player_frame))
                else Ok prev) ;;
      if negb (player_state =? LAND_FALL_SPECIAL) then
        frame_loop frames (i + 1) rest' prev' state out
      else
        match prev' with
        | None => Err UnboundLocalError
        | Some prev_player_state =>
            if prev_player_state =? LAND_FALL_SPECIAL then
              frame_loop frames (i + 1) rest' prev' state out
            else
              state' <- trigger_loop frames i player_frame [0; 1; 2; 3; 4] state ;;
              let out' := match state' with
                          | Some w => out ++ [w]
                          | None => out
                          end in
              frame_loop frames (i + 1) rest' prev' state' out'
        end
  end.

(** [wavedash_compute(player=player)]: from the computer's
    [_wavedash_state] and the player's [stats.wavedashes], the new values of
    both. *)
Definition wavedash_compute (frames : list PlayerFrame) (state : option WavedashData)
    (wavedashes : list WavedashData) : result (option WavedashData * list WavedashData) :=
  frame_loop frames 0 frames None state wavedashes.

(** A transition into [LAND_FALL_SPECIAL] at [i] whose 5-frame look-back
    window [i - 4 .. i] contains an L or R press: the landings the claim
    counts, over frames of the list only. *)
Definition qualifying_landing (frames : list PlayerFrame) (i : nat) : bool :=
  match nth_error frames i with
  | Some f =>
      (post_state f =? LAND_FALL_SPECIAL)
      && match i with
         | O => false
         | S i' => match nth_error frames i' with
                   | Some g => negb (post_state g =? LAND_FALL_SPECIAL)
                   | None => false
                   end
         end
      && existsb (fun j =>
           match nth_error frames (i - j)%nat with
           | Some g => (j <=? i)%nat &&
                       (py_in Physical_R (pressed (pre_physical g))
                        || py_in Physical_L (pressed (pre_physical g)))
           | None => false
           end) [0; 1; 2; 3; 4]%nat
  | None => false
  end.

Definition count_qualifying_landings (frames : list PlayerFrame) : nat :=
  List.length (filter (qualifying_landing frames) (seq 0 (List.length frames))).

End Wavedash.

(** ** [TakeHitData._find_valid_sdi] (stats/stat_types.py) *)

Module SDI.

(** [JoystickRegion] (stats/common.py), clockwise from [UP]. *)
Inductive JoystickRegion :=
| DEAD_ZONE | UP | UP_RIGHT | RIGHT | DOWN_RIGHT | DOWN | DOWN_LEFT | LEFT | UP_LEFT.

Definition region_value (r : JoystickRegion) : Z :=
  match r with
  | DEAD_ZONE => -1 | UP => 0 | UP_RIGHT => 1 | RIGHT => 2 | DOWN_RIGHT => 3
  | DOWN => 4 | DOWN_LEFT => 5 | LEFT => 6 | UP_LEFT => 7
  end.

(** [IntEnum] equality is equality of the values. *)
Definition region_eqb (a b : JoystickRegion) : bool := region_value a =? region_value b.

(** The body of the [for i, stick_region in enumerate(...)] loop; [prev] is
    [None] at [i == 0] and otherwise the region at [i - 1].  [Z.modulo] is
    Python's [%] (floored). *)
Definition sdi_step (prev : option JoystickRegion) (stick_region : JoystickRegion)
    (sdi_inputs : list JoystickRegion) : list JoystickRegion :=
  match prev with
  | None => sdi_inputs
  | Some prev_stick_region =>
      if region_eqb stick_region DEAD_ZONE then sdi_inputs
      else if region_eqb stick_region prev_stick_region then sdi_inputs
      else if region_eqb prev_stick_region DEAD_ZONE then sdi_inputs ++ [stick_region]
      else if region_value prev_stick_region mod 2 =? 0 then sdi_inputs ++ [stick_region]
      else if region_value prev_stick_region mod 2 =? 1 then
        if region_value stick_region mod 2 =? 1 then sdi_inputs ++ [stick_region]
        else
          let d := Z.abs (region_value stick_region - region_value prev_stick_region) in
          if (3 <=? d) && (d <? 7) then sdi_inputs ++ [stick_region]
          else sdi_inputs
      else sdi_inputs
  end.

Fixpoint sdi_loop (prev : option JoystickRegion) (regions : list JoystickRegion)
    (sdi_inputs : list JoystickRegion) : list JoystickRegion :=
  match regions with
  | [] => sdi_inputs
  | r :: rest => sdi_loop (Some r) rest (sdi_step prev r sdi_inputs)
  end.

Record TakeHitData := mkTakeHitData {
  stick_regions_during_hitlag : list JoystickRegion;
  sdi_inputs : list JoystickRegion
}.

(** [_find_valid_sdi] appends to [self.sdi_inputs]. *)
Definition _find_valid_sdi (d : TakeHitData) : TakeHitData :=
  mkTakeHitData (stick_regions_during_hitlag d)
                (sdi_loop None (stick_regions_during_hitlag d) (sdi_inputs d)).

(** The SDI inputs extracted from a list of regions, starting from the
    dataclass default [sdi_inputs = []]. *)
Definition find_valid_sdi (regions : list JoystickRegion) : list JoystickRegion :=
  sdi_inputs (_find_valid_sdi (mkTakeHitData regions [])).

End SDI.

(** ** [ComputerBase.get_player] (stats/computer.py) *)

Module Computer.

(** The [Player] fields [get_player] compares. *)
Record Player := mkPlayer { port : Z; connect_code : option string }.

(** An identifier: a [str], or an [int] / [Port] ([Port] is an [IntEnum]). *)
Inductive Identifier := IdStr (s : string) | IdInt (n : Z).

(** A Python value that a [match] statement dispatches on by type. *)
Inductive PyVal := PStr (s : string) | PInt (n : Z).

Definition ascii_upper (c : ascii) : ascii :=
  let n := nat_of_ascii c in
  if (97 <=? n)%nat && (n <=? 122)%nat then ascii_of_nat (n - 32) else c.

(** [str.upper] on the ASCII letters. *)
Fixpoint str_upper (s : string) : string :=
  match s with
  | EmptyString => EmptyString
  | String c s' => String (ascii_upper c) (str_upper s')
  end.

(** [identifier.upper()]: [int] (and [Port]) have no attribute [upper]. *)
Definition upper (identifier : Identifier) : result PyVal :=
  match identifier with
  | IdStr s => Ok (PStr (str_upper s))
  | IdInt _ => Err AttributeError
  end.

(** [player.connect_code == identifier]: a missing code ([None]) and an
    [int] never equal a [str]. *)
Definition code_eq (code : option string) (identifier : Identifier) : bool :=
  match code, identifier with
  | Some c, IdStr s => String.eqb c s
  | _, _ => false
  end.

(** [player.port == identifier]. *)
Definition port_eq (p : Z) (identifier : Identifier) : bool :=
  match identifier with
  | IdInt n => p =? n
  | IdStr _ => false
  end.

Definition get_player (players : list Player) (identifier : Identifier) : result Player :=
  subject <- upper identifier ;;
  match subject with
  | PStr _ =>
      match find (fun player => code_eq (connect_code player) identifier) players with
      | Some player => Ok player
      | None => Err (IdentifierError "No player matching given connect code")
      end
  | PInt _ =>
      match find (fun player => port_eq (port player) identifier) players with
      | Some player => Ok player
      | None => Err (IdentifierError "No player matching given port number")
      end
  end.

End Computer.


(** ** The [raw] element: [_parse_event_payloads], [_parse_event] and the
    opening statements of [_parse] (parse.py), [expect_bytes] (util.py) *)

Module Parse.

(** The codes of [EventType] (event.py). *)
Definition EVENT_PAYLOADS : Z := 0x35.
Definition EventType_members : list Z :=
  [0x35; 0x36; 0x37; 0x38; 0x39; 0x3A; 0x3B; 0x3C; 0x3D; 0x10].

(** [EventType(code)]: [util.IntEnum._missing_] raises [ValueError]. *)
Definition EventType_of (code : Z) : result Z :=
  if existsb (Z.eqb code) EventType_members then Ok code
  else Err (ValueError "is not a valid EventType").

(** A Python [dict] from [int] to [int], in insertion order: assigning an
    existing key replaces its value in place. *)
Definition dict := list (Z * Z).

Fixpoint dict_set (d : dict) (k v : Z) : dict :=
  match d with
  | [] => [(k, v)]
  | (k', v') :: d' => if k' =? k then (k, v) :: d' else (k', v') :: dict_set d' k v
  end.

Fixpoint dict_get (d : dict) (k : Z) : option Z :=
  match d with
  | [] => None
  | (k', v) :: d' => if k' =? k then Some v else dict_get d' k
  end.

(** The [for i in range(command_count)] loop of [_parse_event_payloads]; its
    inner [try: EventType(code)] only logs unknown codes. *)
Fixpoint read_sizes (n : nat) (sizes : dict) : Reader dict := fun s =>
  match n with
  | O => Ok (sizes, s)
  | S n' =>
      p <- unpack_uint8 s ;; let (code, s) := p in
      p <- unpack_uint16 s ;; let (size, s) := p in
      read_sizes n' (dict_set sizes code size) s
  end.

(** [_parse_event_payloads]: returns the number of bytes of the block and
    the payload size of each event code.  [/] on [Z] is Python's [//]. *)
Definition _parse_event_payloads : Reader (Z * dict) := fun s =>
  p <- unpack_uint8 s ;; let (code, s) := p in
  p <- unpack_uint8 s ;; let (this_size, s) := p in
  event_type <- EventType_of code ;;
  if negb (event_type =? EVENT_PAYLOADS) then Err (ValueError "expected event payloads")
  else
    let this_size := this_size - 1 in
    let command_count := this_size / 3 in
    if negb (command_count * 3 =? this_size)
    then Err (ValueError "payload size not divisible by 3")
    else
      p <- read_sizes (Z.to_nat command_count) [] s ;; let (sizes, s) := p in
      Ok ((2 + this_size, sizes), s).

(** The exceptions of the container parser: those of the readers, and the
    ones parse.py and util.py add. *)
Inductive ParseExc :=
| Raised (e : PyExc)
| TypeError
| KeyError
| AssertionError
| ParseError (cause : ParseExc).

Inductive presult (A : Type) : Type :=
| POk (a : A)
| PErr (e : ParseExc).
Arguments POk {A} a.
Arguments PErr {A} e.

Definition pbind {A B} (m : presult A) (k : A -> presult B) : presult B :=
  match m with
  | POk a => k a
  | PErr e => PErr e
  end.

Notation "x <-- m ;;; k" := (pbind m (fun x => k))
  (at level 61, m at next level, right associativity).

Definition lift {A} (r : result A) : presult A :=
  match r with
  | Ok a => POk a
  | Err e => PErr (Raised e)
  end.

(** The keys of [EVENT_TYPE_PARSE]: frame start, frame pre, frame post, item,
    frame end, game end. *)
Definition EVENT_TYPE_PARSE_keys : list Z := [0x3A; 0x37; 0x38; 0x3B; 0x3C; 0x39].

(** [_parse_event].  Each entry of [EVENT_TYPE_PARSE] passes [replay_version]
    to [Frame.Event.Id], [Frame.Event.PortId] or [End._parse], none of which
    takes that argument: the call raises [TypeError], which the
    [except Exception] clause re-raises as [ParseError].  For the other codes
    [EVENT_TYPE_PARSE.get] gives [None], the event stays [None], and the
    function returns [(1 + size, None, code)], kept here as
    [(1 + size, code)]. *)
Definition _parse_event (payload_sizes : dict) (event_stream : list Byte.byte)
  : presult ((Z * Z) * list Byte.byte) :=
  p <-- lift (unpack_uint8 event_stream) ;;; let (code, event_stream) := p in
  match dict_get payload_sizes code with
  | None => PErr (Raised (ValueError "unexpected event type"))
  | Some size =>
      let (_, event_stream) := read (Z.to_nat size) event_stream in
      if existsb (Z.eqb code) EVENT_TYPE_PARSE_keys then PErr (ParseError TypeError)
      else POk ((1 + size, code), event_stream)
  end.

Fixpoint bytes_eqb (a b : list Byte.byte) : bool :=
  match a, b with
  | [], [] => true
  | x :: a', y :: b' => Byte.eqb x y && bytes_eqb a' b'
  | _, _ => false
  end.

(** [expect_bytes] (util.py). *)
Definition expect_bytes (expected_bytes : list Byte.byte) (stream : list Byte.byte)
  : presult (list Byte.byte) :=
  let (read_bytes, stream) := read (List.length expected_bytes) stream in
  if bytes_eqb read_bytes expected_bytes then POk stream else PErr AssertionError.

(** [unpack_int32] ([">i"]): a signed big-endian 32-bit integer. *)
Definition unpack_int32 : Reader Z := fun s =>
  p <- read_unpack 4 s ;; let (v, s) := p in
  Ok (if v >=? 2 ^ 31 then v - 2 ^ 32 else v, s).

(** [b"{U\x03raw[$U#l"]: the UBJSON opening of the [raw] element. *)
Definition raw_header : list Byte.byte :=
  [Byte.x7b; Byte.x55; Byte.x03; Byte.x72; Byte.x61; Byte.x77;
   Byte.x5b; Byte.x24; Byte.x55; Byte.x23; Byte.x6c].

(** The statements of [_parse] that precede the call of [_parse_events]:
    the remaining length of [raw] and the payload sizes. *)
Definition _parse_head (stream : list Byte.byte) : presult ((Z * dict) * list Byte.byte) :=
  stream <-- expect_bytes raw_header stream ;;;
  p <-- lift (unpack_int32 stream) ;;; let (length, stream) := p in
  p <-- lift (_parse_event_payloads stream) ;;; let (q, stream) := p in
  let (bytes_read, payload_sizes) := q in
  let length := if negb (length =? 0) then length - bytes_read else length in
  POk ((length, payload_sizes), stream).

End Parse.

(** ** [_parse_events] and the handler table [thing] (parse.py) *)

Module ParseEvents.
Import Parse.

Section Decoder.

(** The decoded [Start] record and [Start._parse]. *)
Variable StartRec : Type.
Variable Start_parse : list Byte.byte -> result StartRec.

(** The decoded [Frame.Item] record, the parameter of [Frames.Frame]. *)
Variable ItemRec : Type.

(** [stream.seek(skip, os.SEEK_CUR)] on the rest of the stream; what it does
    depends on the kind of stream ([BytesIO], [mmap], ...). *)
Variable seek_cur : Z -> list Byte.byte -> presult (list Byte.byte).

(** The attributes of [Game] that the handlers given by [Game.__init__] set:
    [Start] sets [start], [End] sets [end], [Frame] is [_add_frame]. *)
Record Game := mkGame {
  start : option StartRec;
  end_ : option GameEnd.End;
  frames : list (Frames.Frame ItemRec)
}.

Definition set_start (g : Game) (s : option StartRec) : Game := mkGame s (end_ g) (frames g).
Definition set_end (g : Game) (e : option GameEnd.End) : Game := mkGame (start g) e (frames g).
Definition set_frames (g : Game) (fr : list (Frames.Frame ItemRec)) : Game :=
  mkGame (start g) (end_ g) fr.

(** What a handler of [thing] gives back: the new [current_frame], with the
    game and the stream as it leaves them. *)
Definition HandlerResult : Type :=
  presult ((option (Frames.Frame ItemRec) * Game) * list Byte.byte).

(** [_parse_event] returns [event = None] for every code it accepts (the
    codes that are not keys of [EVENT_TYPE_PARSE]), so every handler below is
    called with [event = None]. *)

(** [_game_start].  Its [bytes_read += skip] only changes the handler's own
    parameter. *)
Definition _game_start (current_frame : option (Frames.Frame ItemRec)) (g : Game)
    (skip_frames : bool) (total_size bytes_read : Z) (payload_sizes : dict)
    (stream : list Byte.byte) : HandlerResult :=
  let g := set_start g None in
  if skip_frames && negb (total_size =? 0) then
    match dict_get payload_sizes 0x39 with
    | None => PErr KeyError
    | Some size =>
        let skip := total_size - bytes_read - size - 1 in
        stream <-- seek_cur skip stream ;;;
        POk ((current_frame, g), stream)
    end
  else POk ((current_frame, g), stream).

(** [_game_end]. *)
Definition _game_end (current_frame : option (Frames.Frame ItemRec)) (g : Game)
    (stream : list Byte.byte) : HandlerResult :=
  POk ((current_frame, set_end g None), stream).

(** [_start_frame], [_pre_frame], [_post_frame], [_item_frame] and
    [_end_frame]: when [current_frame] is set, [current_frame.index !=
    event.id.frame] reads [event.id]; otherwise [Frame(event.id.frame)] does;
    on [None] both raise [AttributeError]. *)
Definition _frame_handler : HandlerResult := PErr (Raised AttributeError).

(** [thing[event_code](...)]: a code that is not a key of [thing] raises
    [KeyError]. *)
Definition thing (event_code : Z) (current_frame : option (Frames.Frame ItemRec)) (g : Game)
    (skip_frames : bool) (total_size bytes_read : Z) (payload_sizes : dict)
    (stream : list Byte.byte) : HandlerResult :=
  if event_code =? 0x36 then
    _game_start current_frame g skip_frames total_size bytes_read payload_sizes stream
  else if existsb (Z.eqb event_code) [0x3A; 0x37; 0x38; 0x3B; 0x3C] then _frame_handler
  else if event_code =? 0x39 then _game_end current_frame g stream
  else if event_code =? 16 then (* [_do_nothing] has no [return]: [None] *)
    POk ((None, g), stream)
  else PErr KeyError.

(** The [while] loop of [_parse_events].  Its event is the [Start] before the
    first pass and [None] after each pass, so [not isinstance(event, End)]
    always holds and only the byte count ends the loop.  Each pass reads at
    least the code byte and adds [1 + size] to [bytes_read]; with the sizes
    of [_parse_event_payloads] (unsigned, so at least 0), the loop makes at
    most [length stream] passes when [total_size = 0] (where [_game_start]
    does not seek) and at most [total_size - bytes_read] otherwise, and the
    fuel [_parse_events] gives it is larger than both. *)
Fixpoint loop (fuel : nat) (payload_sizes : dict) (total_size : Z) (skip_frames : bool)
    (current_frame : option (Frames.Frame ItemRec)) (g : Game) (bytes_read : Z)
    (stream : list Byte.byte) : HandlerResult :=
  match fuel with
  | O => POk ((current_frame, g), stream)
  | S fuel =>
      if (total_size =? 0) || (bytes_read <? total_size) then
        p <-- _parse_event payload_sizes stream ;;;
        let '((b, event_code), stream) := p in
        let bytes_read := bytes_read + b in
        p <-- thing event_code current_frame g skip_frames total_size bytes_read
                payload_sizes stream ;;;
        let '((current_frame, g), stream) := p in
        loop fuel payload_sizes total_size skip_frames current_frame g bytes_read stream
      else POk ((current_frame, g), stream)
  end.

(** [_parse_events].  [replay_version = event.slippi_version] only feeds
    [_parse_event], which raises before using it.  After the loop,
    [if current_frame:] hands the last frame to [_add_frame]. *)
Definition _parse_events (payload_sizes : dict) (total_size : Z) (skip_frames : bool)
    (g : Game) (stream : list Byte.byte) : presult (Game * list Byte.byte) :=
  p <-- lift (unpack_uint8 stream) ;;; let (event_code, stream) := p in
  if negb (event_code =? 0x36) then
    PErr (Raised (ValueError "expected event code 0x36 (Game Start)"))
  else
    match dict_get payload_sizes event_code with
    | None => PErr KeyError
    | Some b =>
        let (start_block, stream) := read (Z.to_nat b) stream in
        match Start_parse start_block with
        | Err e => PErr (ParseError (Raised e))
        | Ok _ =>
            let bytes_read := b + 1 in
            let fuel := S (List.length stream + Z.to_nat (total_size - bytes_read)) in
            p <-- loop fuel payload_sizes total_size skip_frames None g bytes_read stream ;;;
            let '((current_frame, g), stream) := p in
            match current_frame with
            | Some f =>
                fr <-- lift (Frames._add_frame ItemRec (frames g) (Frames._finalize ItemRec f)) ;;;
                POk (set_frames g fr, stream)
            | None => POk (g, stream)
            end
        end
    end.

(** [Game.__init__] starts from [start = end = None] and [frames = []]. *)
Definition Game_init : Game := mkGame None None [].

End Decoder.

End ParseEvents.

(** A payload-size entry as it appears in the event-payloads block: the
    event code, then the size as a big-endian [uint16]. *)
Module PayloadEntry.

Definition entry : Type := Byte.byte * Byte.byte * Byte.byte.

Definition entry_bytes (e : entry) : list Byte.byte :=
  let '(c, hi, lo) := e in [c; hi; lo].

Definition entry_code (e : entry) : Z := byte_val (fst (fst e)).

Definition entry_size (e : entry) : Z := byte_val (snd (fst e)) * 256 + byte_val (snd e).

(** The size of the last entry for [k], if any. *)
Fixpoint last_size (es : list entry) (k : Z) : option Z :=
  match es with
  | [] => None
  | e :: es' =>
      match last_size es' k with
      | Some v => Some v
      | None => if entry_code e =? k then Some (entry_size e) else None
      end
  end.

End PayloadEntry.

(** ** [Start.SlippiVersion._parse] and [__eq__] (event.py) *)

Module VersionOps.
Import Version.

(** [SlippiVersion._parse]: four [uint8]s, the fourth being the obsolete
    [build], which the constructor drops. *)
Definition _parse : Reader SlippiVersion := fun s =>
  p <- unpack_uint8 s ;; let (ma, s) := p in
  p <- unpack_uint8 s ;; let (mi, s) := p in
  p <- unpack_uint8 s ;; let (re, s) := p in
  p <- unpack_uint8 s ;; let (build, s) := p in
  Ok (mkVersion ma mi re, s).

(** The argument of [__eq__]: another version, a sequence of [int]s, or a
    [str]. *)
Inductive EqArg :=
| EqV (v : SlippiVersion)
| EqSeq (xs : list Z)
| EqStr (s : string).

(** [__eq__].  Its first test, [isinstance(other, Sequence)], also holds for
    a [str]: a string of three characters unpacks into three one-character
    strings, which never equal an [int]; a string of any other length raises
    [ValueError].  The [str] branch further down is not reached. *)
Definition eq (self : SlippiVersion) (other : EqArg) : result bool :=
  match other with
  | EqSeq [ma; mi; re] =>
      Ok ((major self =? ma) && (minor self =? mi) && (revision self =? re))
  | EqSeq _ => Err (ValueError "Incorrect Sequence for SlippiVersion")
  | EqStr s =>
      if Nat.eqb (String.length s) 3 then Ok false
      else Err (ValueError "Incorrect Sequence for SlippiVersion")
  | EqV o =>
      Ok ((major self =? major o) && (minor self =? minor o) && (revision self =? revision o))
  end.

(** Python's [str] of an [int], in decimal. *)
Definition digit (d : Z) : ascii := ascii_of_nat (48 + Z.to_nat d).

Fixpoint decimal (fuel : nat) (n : Z) (acc : string) : string :=
  match fuel with
  | O => acc
  | S fuel' =>
      if n <? 10 then String (digit n) acc
      else decimal fuel' (n / 10) (String (digit (n mod 10)) acc)
  end.

Definition str_of_int (n : Z) : string :=
  if n <? 0 then String "-" (decimal (S (Z.to_nat (- n))) (- n) EmptyString)
  else decimal (S (Z.to_nat n)) n EmptyString.

(** [SlippiVersion.__repr__]: [f"{major}.{minor}.{revision}"]. *)
Definition repr (v : SlippiVersion) : string :=
  (str_of_int (major v) ++ "." ++ str_of_int (minor v) ++ "." ++ str_of_int (revision v))%string.

End VersionOps.

(** ** Statements about [Game.frames] *)

Module FrameSlots.

(** Every frame of [Game.frames] sits in the slot [index - FIRST_FRAME_INDEX]. *)
Definition indexed {I : Type} (frames : list (Frames.Frame I)) : Prop :=
  forall (j : nat) f, nth_error frames j = Some f ->
    Frames.index I f = Z.of_nat j + Frames.FIRST_FRAME_INDEX.

End FrameSlots.

(** ** [WavedashData.total_startup] (stats/stat_types.py) *)

Module WavedashStats.
Import Wavedash.

Definition total_startup (w : WavedashData) : Z := trigger_frame w + airdodge_frames w.

(** What a record appended by [wavedash_compute] on [frames] looks like: it
    describes the frame of [frames] at [frame_index], a [LAND_FALL_SPECIAL]
    frame, with both frame counts in [0 .. 4], and a waveland has trigger
    frame [0]. *)
Definition well_formed (frames : list PlayerFrame) (w : WavedashData) : Prop :=
  0 <= frame_index w /\
  (exists f, nth_error frames (Z.to_nat (frame_index w)) = Some f /\
             post_state f = LAND_FALL_SPECIAL /\
             stocks_remaining w = post_stocks_remaining f /\ stick w = pre_joystick f) /\
  0 <= trigger_frame w <= 4 /\ 0 <= airdodge_frames w <= 4 /\
  (waveland w = true -> trigger_frame w = 0).

Definition state_well_formed (frames : list PlayerFrame) (st : option WavedashData) : Prop :=
  match st with
  | Some w => well_formed frames w
  | None => True
  end.

End WavedashStats.

(** ** [ComputerBase.get_opponent] (stats/computer.py) *)

Module Opponent.
Import Computer.

(** The test of the loop body: [player.connect_code == identifier] under
    [case str()], [player.port == identifier] under [case int() | Port()]. *)
Definition is_identified (identifier : Identifier) (player : Player) : bool :=
  match identifier with
  | IdStr _ => code_eq (connect_code player) identifier
  | IdInt _ => port_eq (port player) identifier
  end.

(** The [for player in self.players] loop: [opponent] and [valid_id]. *)
Fixpoint opponent_loop (identifier : Identifier) (players : list Player)
    (opponent : option Player) (valid_id : bool) : option Player * bool :=
  match players with
  | [] => (opponent, valid_id)
  | player :: rest =>
      if is_identified identifier player
      then opponent_loop identifier rest opponent true
      else opponent_loop identifier rest (Some player) valid_id
  end.

(** [get_opponent]: [opponent] starts as [None], which it may still be when
    returned. *)
Definition get_opponent (players : list Player) (identifier : Identifier)
  : result (option Player) :=
  let (opponent, valid_id) := opponent_loop identifier players None false in
  if valid_id then Ok opponent
  else Err (IdentifierError "Cannot find opponent for identifier").

End Opponent.

(** ** The player loop of [ComputerBase.prime_replay] (stats/computer.py),
    from the [characters] statement on *)

Module Prime.
Import Computer.

(** [Port] (util.py), in definition order: [NONE = -1], then [P1 .. P4]. *)
Definition Port_members : list Z := [-1; 0; 1; 2; 3].

(** [itertools.permutations]: the element picked first runs over the
    positions in order. *)
Fixpoint picks {A} (l : list A) : list (A * list A) :=
  match l with
  | [] => []
  | x :: xs => (x, xs) :: map (fun '(y, r) => (y, x :: r)) (picks xs)
  end.

Fixpoint perms_fuel {A} (n : nat) (l : list A) : list (list A) :=
  match n with
  | O => [[]]
  | S n' => flat_map (fun '(x, r) => map (cons x) (perms_fuel n' r)) (picks l)
  end.

Definition permutations {A} (l : list A) : list (list A) := perms_fuel (List.length l) l.

(** What the loop reads of the replay.  [start_players] are the four slots of
    [start.players], a present one holding its character; [meta_codes] are
    the four slots of [metadata.players], a present one holding its
    [connect_code]; [frames] gives, for each frame,
    its four [ports] slots, a present one holding the leader's
    [post.stocks_remaining]. *)
Record Replay := mkReplay {
  start_players : list (option Z);
  meta_codes : list (option (option string));
  game_end : option GameEnd.End;
  frames : list (list (option Z))
}.

(** The fields of a [Player] the loop sets besides those of [get_player]. *)
Record PrimedPlayer := mkPrimed {
  player : Player;
  characters : list Z;
  did_win : bool
}.

(** [frame.ports[port]] followed by an attribute access: [None] has none. *)
Definition port_slot (frame : list (option Z)) (port : Z) : result Z :=
  slot <- py_getitem frame port ;;
  match slot with
  | Some v => Ok v
  | None => Err AttributeError
  end.

(** The [did_win] computation of the loop body. *)
Definition compute_did_win (r : Replay) (port : Z) : result bool :=
  match game_end r with
  | None => Ok false
  | Some e =>
      match GameEnd.player_placements e with
      | Some placements => x <- py_getitem placements port ;; Ok (x =? 0)
      | None =>
          let by_stocks :=
            last <- py_getitem (frames r) (-1) ;;
            stocks <- port_slot last port ;;
            Ok (stocks >? 0) in
          match GameEnd.lras_initiator e with
          | Some l => if negb (l =? -1) then Ok (negb (port =? l)) else by_stocks
          | None => by_stocks
          end
      end
  end.

(** [tuple([frame.ports[port].leader for frame in self.replay.frames])]. *)
Fixpoint leaders (fs : list (list (option Z))) (port : Z) : result unit :=
  match fs with
  | [] => Ok tt
  | f :: fs' => _ <- port_slot f port ;; leaders fs' port
  end.

(** The [for port in Port] loop; [chars] is [characters], [players] is
    [self.players].  The arguments of [Player(...)] are evaluated in order:
    [characters.pop(0)] first. *)
Fixpoint port_loop (r : Replay) (ports : list Z) (chars : list (list Z))
    (players : list PrimedPlayer) : result (list PrimedPlayer) :=
  match ports with
  | [] => Ok players
  | port :: ports' =>
      did_win <- compute_did_win r port ;;
      slot <- py_getitem (start_players r) port ;;
      match slot with
      | None => port_loop r ports' chars players
      | Some _ =>
          match chars with
          | [] => Err IndexError
          | c :: chars' =>
              meta <- py_getitem (meta_codes r) port ;;
              (* [metadata.players[port].connect_code]: [None] has no attribute *)
              code <- match meta with Some code => Ok code | None => Err AttributeError end ;;
              _ <- leaders (frames r) port ;;
              port_loop r ports' chars' (players ++ [mkPrimed (mkPlayer port code) c did_win])
          end
      end
  end.

Inductive PrimeExc :=
| Raised (e : PyExc)
| PlayerCountError.

Inductive outcome (A : Type) :=
| Done (a : A)
| Fail (e : PrimeExc).
Arguments Done {A} a.
Arguments Fail {A} e.

(** From the [characters] statement to [return self]: the players the
    computer holds afterwards. *)
Definition prime_players (players : list PrimedPlayer) (r : Replay) : outcome (list PrimedPlayer) :=
  let chars := permutations (flat_map (fun s => match s with Some c => [c] | None => [] end)
                                      (start_players r)) in
  if negb (Nat.eqb (List.length chars) 2) then Fail PlayerCountError
  else
    match port_loop r Port_members chars players with
    | Err e => Fail (Raised e)
    | Ok players' =>
        if negb (Nat.eqb (List.length players') 2)
        then Fail (Raised (ValueError "Game must have exactly 2 players for stats generation"))
        else Done players'
    end.

(** The ports of [Port] whose [start.players[port]] is not [None]. *)
Definition occupied (r : Replay) (ports : list Z) : nat :=
  List.length (filter (fun port => match py_getitem (start_players r) port with
                                   | Ok (Some _) => true
                                   | _ => false
                                   end) ports).

End Prime.
(** * Concrete inputs used by the properties below *)

(** A 27-byte post-frame payload: everything before [state_age] (character,
    state, position, facing [1.0], percent, shield [60.0], last attack,
    combo count, last hit by, stocks) and nothing after it. *)
Definition post_payload_before_state_age : list Byte.byte :=
  [Byte.x01; Byte.x00; Byte.x0e;
   Byte.x00; Byte.x00; Byte.x00; Byte.x00;  Byte.x00; Byte.x00; Byte.x00; Byte.x00;
   Byte.x3f; Byte.x80; Byte.x00; Byte.x00;
   Byte.x00; Byte.x00; Byte.x00; Byte.x00;
   Byte.x42; Byte.x70; Byte.x00; Byte.x00;
   Byte.x00; Byte.x00; Byte.x01; Byte.x04].

Definition wd_frame (state physical : Z) : Wavedash.PlayerFrame :=
  Wavedash.mkPlayerFrame (0, 0) physical state 4.

(** Nine frames of one player: a landing into [LAND_FALL_SPECIAL] (43) at
    frame 1 with R ([0x20]) held, standing (14) on frames 2 to 7, and a second
    landing at frame 8 with no button held on frames 4 to 8. *)
Definition wd_frames : list Wavedash.PlayerFrame :=
  [wd_frame 14 0; wd_frame 43 32; wd_frame 14 0; wd_frame 14 0; wd_frame 14 0;
   wd_frame 14 0; wd_frame 14 0; wd_frame 14 0; wd_frame 43 0].

(** The payload sizes of a test replay: [Game Start] of [start_size]
    bytes, then [Frame Start], [Frame Pre], [Game End] and the message
    splitter. *)
Definition test_payload_sizes (start_size : Z) : Parse.dict :=
  [(0x36, start_size); (0x3A, 8); (0x37, 6); (0x39, 1); (0x10, 0)].

(** A [Frame Pre] event of port 0's leader for frame [0xffffff00 + low] (a
    signed 32-bit index: [-123] for [low = 0x85]). *)
Definition frame_pre_event (low : Byte.byte) : list Byte.byte :=
  [Byte.x37; Byte.xff; Byte.xff; Byte.xff; low; Byte.x00; Byte.x00].

(** The events after [Game Start] of a rollback: frames [-123], [-122],
    [-121], then [-122] again, a message splitter and [Game End]. *)
Definition rollback_events : list Byte.byte :=
  frame_pre_event Byte.x85 ++ frame_pre_event Byte.x86 ++ frame_pre_event Byte.x87 ++
  frame_pre_event Byte.x86 ++ [Byte.x10; Byte.x39; Byte.x02].

(** A [Frame Start] event for frame [-123] with random seed 42, then
    [Game End]. *)
Definition frame_start_events : list Byte.byte :=
  [Byte.x3a; Byte.xff; Byte.xff; Byte.xff; Byte.x85; Byte.x00; Byte.x00; Byte.x00; Byte.x2a;
   Byte.x39; Byte.x02].

(** The event stream of [raw]: the [Game Start] code, its block, the rest. *)
Definition event_stream (start_block rest : list Byte.byte) : list Byte.byte :=
  Byte.x36 :: start_block ++ rest.

(** The frame of [index] whose port-0 leader holds [payload]. *)
Definition frame_with_pre (index : Z) (payload : Byte.byte) : Frames.Frame unit :=
  Frames.mkFrame unit index
    [Some (Frames.mkPort (Frames.mkData (Some [payload]) None) None); None; None; None]
    [] None None.

(** Two players, on ports 0 and 1, with their connect codes. *)
Definition two_players : list Computer.Player :=
  [Computer.mkPlayer 0 (Some "ABC#123"%string); Computer.mkPlayer 1 (Some "XYZ#987"%string)].

(** * Properties *)

(** ** Helper facts about the byte readers *)

Lemma be_value_single (b : Byte.byte) : be_value [b] = byte_val b.
Proof. unfold be_value; simpl; lia. Qed.

Lemma unpack_uint8_cons (b : Byte.byte) (s : list Byte.byte) :
  unpack_uint8 (b :: s) = Ok (byte_val b, s).
Proof.
  unfold unpack_uint8, read_unpack, read, unpack_fixed; simpl.
  rewrite be_value_single; reflexivity.
Qed.

Lemma unpack_uint8_nil : @unpack_uint8 [] = Err StructError.
Proof. reflexivity. Qed.

(** ** C2: [SlippiVersion.__ge__] *)

(** C2 (code_bug).  [__ge__] is not the lexicographic order of the version
    triples: its last disjunct compares the minor numbers without checking
    that the major numbers are equal, so [1.0.0 >= 2.0.0] is [True] while
    [(1, 0, 0)] is lexicographically smaller than [(2, 0, 0)]. *)
Theorem version_ge_1_0_0_vs_2_0_0 :
  Version.ge (Version.mkVersion 1 0 0) (Version.VArg (Version.mkVersion 2 0 0)) = Ok true
  /\ Version.lex_ge_spec (Version.mkVersion 1 0 0) (Version.mkVersion 2 0 0) = false
  /\ Version.lt (Version.mkVersion 1 0 0) (Version.VArg (Version.mkVersion 2 0 0)) = Ok false.
Proof. repeat split; reflexivity. Qed.

(** ** C10: [End._parse] and [lras_initiator] *)

(** C10.  Whenever [End._parse] returns a record: if the payload has at least
    two bytes, [lras_initiator] is the second byte when that byte is below 4
    and [None] otherwise; for a one-byte payload it is [None]. *)
Theorem end_parse_lras_initiator (payload : list Byte.byte) (e : GameEnd.End)
    (H : GameEnd._parse payload = Ok e) :
  (forall b0 b1 rest, payload = b0 :: b1 :: rest ->
     GameEnd.lras_initiator e =
       if byte_val b1 <? 4 then Some (byte_val b1) else None)
  /\ (List.length payload = 1%nat -> GameEnd.lras_initiator e = None).
Proof.
  destruct payload as [|b0 [|b1 rest]].
  - discriminate H.
  - split; [intros ? ? ? Hp; discriminate Hp|intros _].
    unfold GameEnd._parse in H; rewrite unpack_uint8_cons in H; cbn in H.
    destruct (GameEnd.Method_of (byte_val b0)); [|discriminate H].
    cbn in H; injection H as <-; reflexivity.
  - split; [|intros Hl; discriminate Hl].
    intros c0 c1 r Hp; injection Hp as -> -> ->.
    unfold GameEnd._parse in H; rewrite !unpack_uint8_cons in H; cbn in H.
    destruct (GameEnd.Method_of (byte_val c0)); [|discriminate H].
    cbn in H; injection H as <-; reflexivity.
Qed.

Lemma end_parse_lras_initiator_witness :
  GameEnd._parse [Byte.x02; Byte.x01] = Ok (GameEnd.mkEnd GameEnd.GAME (Some 1) None)
  /\ GameEnd.lras_initiator (GameEnd.mkEnd GameEnd.GAME (Some 1) None) =
       (if byte_val Byte.x01 <? 4 then Some (byte_val Byte.x01) else None).
Proof.
  split; [reflexivity|].
  apply (proj1 (end_parse_lras_initiator [Byte.x02; Byte.x01] _ eq_refl)
           Byte.x02 Byte.x01 []); reflexivity.
Defined.

(** ** C3: [Post._parse] on a payload that ends before [state_age] *)

(** C3 (code_bug).  A post-frame payload that ends right before the
    [state_age] block is not turned into a partial record: the handler of the
    first [try] reads the still unbound local [state_age] and raises
    [UnboundLocalError].  Four more bytes (a [state_age]) and the parse does
    return a partial record, with every later block [None]. *)
Theorem post_parse_short_payload_raises :
  List.length post_payload_before_state_age = 27%nat
  /\ Post._parse post_payload_before_state_age = Err UnboundLocalError
  /\ exists p,
       Post._parse (post_payload_before_state_age ++ [Byte.x00; Byte.x00; Byte.x00; Byte.x00])
         = Ok p
       /\ Post.state_age p = Some 0 /\ Post.flags p = None
       /\ Post.hurtbox_status p = None /\ Post.self_air_speed p = None
       /\ Post.hitlag_remaining p = None /\ Post.animation_index p = None.
Proof.
  split; [reflexivity|]. split; [vm_compute; reflexivity|].
  eexists; split; [vm_compute; reflexivity|].
  repeat split.
Qed.

(** ** C4: the wavedash detector *)

(** C4 (code_bug).  [_wavedash_state] is never reset between landings, so a
    landing with no L or R press in its window appends the previous landing's
    record again: on [wd_frames] only one landing has a press in its window,
    but two records are emitted, both for frame 1. *)
Theorem wavedash_stale_state_reappended :
  Wavedash.count_qualifying_landings wd_frames = 1%nat
  /\ Wavedash.qualifying_landing wd_frames 8 = false
  /\ exists st out,
       Wavedash.wavedash_compute wd_frames None [] = Ok (st, out)
       /\ List.length out = 2%nat
       /\ map Wavedash.frame_index out = [1; 1].
Proof.
  split; [reflexivity|]. split; [reflexivity|].
  do 2 eexists; split; [vm_compute; reflexivity|].
  split; reflexivity.
Qed.

(** ** Frame reconstruction *)

Section FrameFacts.

Context {I : Type}.

(** A rollback within the list: a frame whose slot [index - (-123)] already
    exists replaces the frame in that slot and keeps the length. *)
Lemma add_frame_rollback_replaces (frames : list (Frames.Frame I)) (f : Frames.Frame I)
    (Hlo : 0 <= Frames.index I f - Frames.FIRST_FRAME_INDEX)
    (Hhi : Frames.index I f - Frames.FIRST_FRAME_INDEX < Z.of_nat (List.length frames)) :
  Frames._add_frame I frames f =
    Ok (list_set frames (Z.to_nat (Frames.index I f - Frames.FIRST_FRAME_INDEX)) f).
Proof.
  unfold Frames._add_frame, py_setitem.
  destruct (Z.eqb_spec (Frames.index I f - Frames.FIRST_FRAME_INDEX)
                       (Z.of_nat (List.length frames))); [lia|].
  destruct (Z.ltb_spec (Frames.index I f - Frames.FIRST_FRAME_INDEX)
                       (Z.of_nat (List.length frames))); [|lia].
  destruct (Z.ltb_spec (Frames.index I f - Frames.FIRST_FRAME_INDEX) 0); [lia|].
  destruct (Z.leb_spec 0 (Frames.index I f - Frames.FIRST_FRAME_INDEX)); [|lia].
  destruct (Z.ltb_spec (Frames.index I f - Frames.FIRST_FRAME_INDEX)
                       (Z.of_nat (List.length frames))); [|lia].
  reflexivity.
Qed.

Lemma list_set_nth_error {A} (l : list A) (n : nat) (x : A) :
  (n < List.length l)%nat -> nth_error (list_set l n x) n = Some x.
Proof.
  revert n; induction l as [|y l IH]; intros [|n] Hn; simpl in *; try lia; auto.
  apply IH; lia.
Qed.

End FrameFacts.

Section DecoderFacts.
Import Parse ParseEvents.

Context {S I : Type} (Start_parse : list Byte.byte -> result S)
  (seek_cur : Z -> list Byte.byte -> presult (list Byte.byte)).

Lemma read_exact (a r : list Byte.byte) :
  read (Z.to_nat (Z.of_nat (List.length a))) (a ++ r) = (a, r).
Proof.
  unfold read; rewrite Nat2Z.id, firstn_app, skipn_app, firstn_all, skipn_all, Nat.sub_diag.
  simpl; rewrite app_nil_r; reflexivity.
Qed.

(** The first event after [Game Start] is read by [_parse_event]; if its code
    is a key of [EVENT_TYPE_PARSE], the decoder raises [ParseError]. *)
Lemma parse_events_keyed_first (payload_sizes : dict) (total_size : Z) (skip_frames : bool)
    (g : Game S I) (start_block : list Byte.byte) (c : Byte.byte) (size : Z)
    (rest : list Byte.byte) :
  dict_get payload_sizes 0x36 = Some (Z.of_nat (List.length start_block)) ->
  In (byte_val c) EVENT_TYPE_PARSE_keys ->
  dict_get payload_sizes (byte_val c) = Some size ->
  total_size = 0 \/ Z.of_nat (List.length start_block) + 1 < total_size ->
  _parse_events S Start_parse I seek_cur payload_sizes total_size skip_frames g
    (event_stream start_block (c :: rest)) =
  PErr (ParseError (match Start_parse start_block with
                    | Ok _ => TypeError
                    | Err e => Raised e
                    end)).
Proof.
  intros H36 Hc Hs Ht.
  unfold _parse_events, event_stream; rewrite unpack_uint8_cons; cbn [lift pbind].
  replace (byte_val Byte.x36) with 0x36 by reflexivity; cbn [Z.eqb negb Pos.eqb].
  rewrite H36, read_exact.
  destruct (Start_parse start_block) as [st|e]; [|reflexivity].
  cbn [loop].
  replace ((total_size =? 0) || (Z.of_nat (List.length start_block) + 1 <? total_size))
    with true
    by (destruct Ht as [->|Hlt]; [reflexivity|];
        symmetry; apply orb_true_iff; right; apply Z.ltb_lt; exact Hlt).
  unfold _parse_event; rewrite unpack_uint8_cons; cbn [lift pbind]; rewrite Hs.
  destruct (read (Z.to_nat size) rest) as [payload rest'].
  replace (existsb (Z.eqb (byte_val c)) EVENT_TYPE_PARSE_keys) with true
    by (symmetry; apply existsb_exists; exists (byte_val c); split; [exact Hc|apply Z.eqb_refl]).
  reflexivity.
Qed.

End DecoderFacts.

(** C1 (code_bug).  No stream with a frame event decodes: on the rollback
    stream (frames [-123], [-122], [-121], then [-122] again) the first
    [Frame Pre] event makes [_parse_event] raise [ParseError], since
    [Frame.Event.PortId(stream, replay_version)] gets an argument it does
    not take; a failing [Start._parse] raises [ParseError] before it.  No
    game, and so no frame for [-122], comes out, whatever [Start._parse]
    returns and whether the declared length is 0 or covers the events. *)
Theorem rollback_stream_raises_parse_error {S I : Type}
    (Start_parse : list Byte.byte -> result S)
    (seek_cur : Z -> list Byte.byte -> Parse.presult (list Byte.byte))
    (skip_frames : bool) (start_block : list Byte.byte) (total_size : Z)
    (Ht : total_size = 0 \/ Z.of_nat (List.length start_block) + 1 < total_size) :
  ParseEvents._parse_events S Start_parse I seek_cur
    (test_payload_sizes (Z.of_nat (List.length start_block))) total_size skip_frames
    (ParseEvents.Game_init S I) (event_stream start_block rollback_events) =
  Parse.PErr (Parse.ParseError (match Start_parse start_block with
                                | Ok _ => Parse.TypeError
                                | Err e => Parse.Raised e
                                end)).
Proof.
  apply (parse_events_keyed_first Start_parse seek_cur _ _ _ _ _ Byte.x37 6).
  - reflexivity.
  - simpl; tauto.
  - reflexivity.
  - exact Ht.
Qed.

Lemma rollback_stream_raises_parse_error_witness :
  ParseEvents._parse_events unit (fun _ => Ok tt) unit (fun _ s => Parse.POk s)
    (test_payload_sizes 2) 0 false (ParseEvents.Game_init unit unit)
    (event_stream [Byte.x03; Byte.x0e] rollback_events) =
  Parse.PErr (Parse.ParseError Parse.TypeError).
Proof.
  exact (rollback_stream_raises_parse_error (I := unit) (fun _ => Ok tt) (fun _ s => Parse.POk s)
           false [Byte.x03; Byte.x0e] 0 (or_introl eq_refl)).
Defined.

(** C5 (code_bug).  A [Frame Start] event never reaches a frame: the entry
    of [EVENT_TYPE_PARSE] for it calls [Frame.Event.Id(stream,
    replay_version)], which takes one argument, and [_parse_event] turns the
    [TypeError] into [ParseError].  (Were it reached, [_start_frame] would
    append the parsed [Frame.Start] to [items] and leave [start] unset.) *)
Theorem frame_start_event_raises_parse_error {S I : Type}
    (Start_parse : list Byte.byte -> result S)
    (seek_cur : Z -> list Byte.byte -> Parse.presult (list Byte.byte))
    (skip_frames : bool) (start_block : list Byte.byte) (total_size : Z)
    (Ht : total_size = 0 \/ Z.of_nat (List.length start_block) + 1 < total_size) :
  ParseEvents._parse_events S Start_parse I seek_cur
    (test_payload_sizes (Z.of_nat (List.length start_block))) total_size skip_frames
    (ParseEvents.Game_init S I) (event_stream start_block frame_start_events) =
  Parse.PErr (Parse.ParseError (match Start_parse start_block with
                                | Ok _ => Parse.TypeError
                                | Err e => Parse.Raised e
                                end)).
Proof.
  apply (parse_events_keyed_first Start_parse seek_cur _ _ _ _ _ Byte.x3a 8).
  - reflexivity.
  - simpl; tauto.
  - reflexivity.
  - exact Ht.
Qed.

Lemma frame_start_event_raises_parse_error_witness :
  ParseEvents._parse_events unit (fun _ => Ok tt) unit (fun _ s => Parse.POk s)
    (test_payload_sizes 2) 20 false (ParseEvents.Game_init unit unit)
    (event_stream [Byte.x03; Byte.x0e] frame_start_events) =
  Parse.PErr (Parse.ParseError Parse.TypeError).
Proof.
  exact (frame_start_event_raises_parse_error (I := unit) (fun _ => Ok tt)
           (fun _ s => Parse.POk s) false [Byte.x03; Byte.x0e] 20
           (or_intror eq_refl)).
Defined.

(** C6, the claim as stated fails: after frame [-123] the next expected index
    is [-122], and frame [-121], one above it, is refused with the
    missing-frames error. *)
Lemma add_frame_gap_of_one_refused :
  Frames.index unit (Frames.Frame_new unit (-121))
    = Z.of_nat (List.length [Frames.Frame_new unit (-123)]) + Frames.FIRST_FRAME_INDEX + 1
  /\ Frames._add_frame unit [Frames.Frame_new unit (-123)] (Frames.Frame_new unit (-121))
     = Err (ValueError "missing frames").
Proof. split; reflexivity. Qed.

(** C6 (amended).  With [count] frames received, a frame whose index is above
    the next expected index [count - 123], by one or by more, raises the
    missing-frames error; a frame at exactly the next expected index is
    appended. *)
Theorem add_frame_next_index_or_missing {I : Type} (frames : list (Frames.Frame I))
    (f : Frames.Frame I) :
  (Z.of_nat (List.length frames) + Frames.FIRST_FRAME_INDEX < Frames.index I f ->
     Frames._add_frame I frames f = Err (ValueError "missing frames"))
  /\ (Frames.index I f = Z.of_nat (List.length frames) + Frames.FIRST_FRAME_INDEX ->
     Frames._add_frame I frames f = Ok (frames ++ [f])).
Proof.
  unfold Frames._add_frame, Frames.FIRST_FRAME_INDEX in *.
  split; intros H.
  - destruct (Z.eqb_spec (Frames.index I f - -123) (Z.of_nat (List.length frames))); [lia|].
    destruct (Z.ltb_spec (Frames.index I f - -123) (Z.of_nat (List.length frames))); [lia|].
    reflexivity.
  - destruct (Z.eqb_spec (Frames.index I f - -123) (Z.of_nat (List.length frames))); [|lia].
    reflexivity.
Qed.

Lemma add_frame_next_index_or_missing_witness :
  Frames._add_frame unit [Frames.Frame_new unit (-123)] (Frames.Frame_new unit (-121))
    = Err (ValueError "missing frames")
  /\ Frames._add_frame unit [Frames.Frame_new unit (-123)] (Frames.Frame_new unit (-122))
    = Ok ([Frames.Frame_new unit (-123)] ++ [Frames.Frame_new unit (-122)]).
Proof.
  split.
  - apply (proj1 (add_frame_next_index_or_missing _ _)); simpl; lia.
  - apply (proj2 (add_frame_next_index_or_missing _ _)); reflexivity.
Defined.

(** ** C7: SDI extraction and inserted dead-zone regions *)

Module SDIFacts.
Import SDI.

Lemma sdi_step_acc (prev : option JoystickRegion) (r : JoystickRegion)
    (acc : list JoystickRegion) :
  sdi_step prev r acc = acc ++ sdi_step prev r [].
Proof.
  unfold sdi_step.
  destruct prev as [p|]; [|rewrite app_nil_r; reflexivity].
  repeat match goal with
         | |- context [if ?c then _ else _] => destruct c
         end; simpl; rewrite ?app_nil_r; reflexivity.
Qed.

Lemma sdi_loop_acc (prev : option JoystickRegion) (rs acc : list JoystickRegion) :
  sdi_loop prev rs acc = acc ++ sdi_loop prev rs [].
Proof.
  revert prev acc; induction rs as [|r rs IH]; intros prev acc; simpl.
  - rewrite app_nil_r; reflexivity.
  - rewrite (IH (Some r) (sdi_step prev r acc)), (IH (Some r) (sdi_step prev r [])).
    rewrite sdi_step_acc, app_assoc; reflexivity.
Qed.

Lemma sdi_loop_split (prev : option JoystickRegion) (l1 rest : list JoystickRegion)
    (r : JoystickRegion) (acc : list JoystickRegion) :
  sdi_loop prev (l1 ++ r :: rest) acc = sdi_loop (Some r) rest (sdi_loop prev (l1 ++ [r]) acc).
Proof.
  revert prev acc; induction l1 as [|a l1 IH]; intros prev acc; simpl.
  - reflexivity.
  - apply IH.
Qed.

Lemma find_valid_sdi_loop (regions : list JoystickRegion) :
  find_valid_sdi regions = sdi_loop None regions [].
Proof. reflexivity. Qed.

(** C7, the claim as stated fails: [[UP; UP]] gives no SDI input, and with a
    dead-zone region inserted, [[UP; DEAD_ZONE; UP]], leaving the dead zone
    counts as one. *)
Lemma sdi_deadzone_insertion_changes_inputs :
  find_valid_sdi [UP; UP] = [] /\ find_valid_sdi [UP; DEAD_ZONE; UP] = [UP].
Proof. split; reflexivity. Qed.

(** C7 (amended).  Inserting a [DEAD_ZONE] region between two identical
    non-deadzone regions [r] adds exactly one SDI input, [r], at the place of
    the insertion (after the inputs extracted from the regions up to the first
    [r]); every other extracted input is unchanged. *)
Theorem sdi_deadzone_insertion_adds_one_input (l1 l2 : list JoystickRegion)
    (r : JoystickRegion) (Hr : r <> DEAD_ZONE) :
  let old := find_valid_sdi (l1 ++ r :: r :: l2) in
  let n := List.length (find_valid_sdi (l1 ++ [r])) in
  find_valid_sdi (l1 ++ r :: DEAD_ZONE :: r :: l2) = firstn n old ++ r :: skipn n old.
Proof.
  intros old n; subst old n.
  rewrite !find_valid_sdi_loop, (sdi_loop_split None l1 (DEAD_ZONE :: r :: l2) r []),
    (sdi_loop_split None l1 (r :: l2) r []).
  set (S := sdi_loop None (l1 ++ [r]) []).
  assert (Hd : region_eqb r DEAD_ZONE = false) by (destruct r; try congruence; reflexivity).
  assert (Hs : region_eqb r r = true) by (apply Z.eqb_refl).
  cbn [sdi_loop].
  assert (E1 : sdi_step (Some r) DEAD_ZONE S = S) by reflexivity.
  assert (E2 : sdi_step (Some DEAD_ZONE) r S = S ++ [r])
    by (unfold sdi_step; rewrite Hd; reflexivity).
  assert (E3 : sdi_step (Some r) r S = S) by (unfold sdi_step; rewrite Hd, Hs; reflexivity).
  rewrite E1, E2, E3.
  rewrite (sdi_loop_acc _ l2 (S ++ [r])), (sdi_loop_acc _ l2 S).
  rewrite firstn_app, skipn_app, Nat.sub_diag, firstn_O, skipn_all, firstn_all, skipn_O.
  rewrite app_nil_r, <- app_assoc; reflexivity.
Qed.

End SDIFacts.

Lemma sdi_deadzone_insertion_adds_one_input_witness :
  SDI.find_valid_sdi [SDI.UP; SDI.DEAD_ZONE; SDI.UP; SDI.RIGHT] = [SDI.UP; SDI.RIGHT]
  /\ SDI.find_valid_sdi [SDI.UP; SDI.DEAD_ZONE; SDI.UP; SDI.RIGHT] =
     firstn 0 (SDI.find_valid_sdi [SDI.UP; SDI.UP; SDI.RIGHT])
       ++ SDI.UP :: skipn 0 (SDI.find_valid_sdi [SDI.UP; SDI.UP; SDI.RIGHT]).
Proof.
  split; [reflexivity|].
  exact (SDIFacts.sdi_deadzone_insertion_adds_one_input [] [SDI.RIGHT] SDI.UP
           ltac:(discriminate)).
Defined.

(** ** C9: [get_player] *)

(** C9 (code_bug).  [get_player] starts with [identifier.upper()], which an
    [int] does not have: every port-number identifier raises
    [AttributeError], the one of a player present (port 0) as well as an
    unknown one (port 5).  Connect codes resolve case-sensitively, and an
    unknown one raises [IdentifierError]. *)
Theorem get_player_int_identifier_raises_attribute_error :
  Computer.get_player two_players (Computer.IdInt 0) = Err AttributeError
  /\ Computer.get_player two_players (Computer.IdInt 5) = Err AttributeError
  /\ Computer.get_player two_players (Computer.IdStr "ABC#123") =
       Ok (Computer.mkPlayer 0 (Some "ABC#123"%string))
  /\ Computer.get_player two_players (Computer.IdStr "abc#123") =
       Err (IdentifierError "No player matching given connect code").
Proof. repeat split; reflexivity. Qed.

(** * Further properties of the decoder and the detectors *)

(** ** Helper facts *)

Lemma read_unpack_app (n : nat) (bs rest : list Byte.byte) :
  List.length bs = n -> read_unpack n (bs ++ rest) = Ok (be_value bs, rest).
Proof.
  intros <-. unfold read_unpack, read, unpack_fixed.
  rewrite firstn_app, firstn_all, Nat.sub_diag, firstn_O, app_nil_r.
  rewrite skipn_app, skipn_all, Nat.sub_diag, skipn_O, Nat.eqb_refl. reflexivity.
Qed.

Lemma read_unpack_ok (n : nat) (s s' : list Byte.byte) (v : Z) :
  read_unpack n s = Ok (v, s') -> s' = skipn n s /\ (n <= List.length s)%nat.
Proof.
  unfold read_unpack, read, unpack_fixed; simpl.
  destruct (Nat.eqb_spec (List.length (firstn n s)) n) as [E|E]; simpl; [|discriminate].
  intros Hk; inversion Hk; subst; split; [reflexivity|].
  rewrite length_firstn in E; lia.
Qed.

Lemma read_unpack_err (n : nat) (s : list Byte.byte) (e : PyExc) :
  read_unpack n s = Err e -> e = StructError /\ (List.length s < n)%nat.
Proof.
  unfold read_unpack, read, unpack_fixed; simpl.
  destruct (Nat.eqb_spec (List.length (firstn n s)) n) as [E|E]; simpl; [discriminate|].
  intros Hk; inversion Hk; subst; split; [reflexivity|].
  rewrite length_firstn in E; lia.
Qed.

Lemma byte_val_bound (b : Byte.byte) : 0 <= byte_val b <= 255.
Proof. unfold byte_val; pose proof (Byte.to_nat_bounded b); lia. Qed.

Lemma unpack_uint8_ok (s s' : list Byte.byte) (v : Z) :
  unpack_uint8 s = Ok (v, s') -> exists b, s = b :: s' /\ v = byte_val b.
Proof.
  destruct s as [|b s]; [discriminate|].
  rewrite unpack_uint8_cons; intros Hk; inversion Hk; subst; eauto.
Qed.

Lemma bytes_eqb_refl (l : list Byte.byte) : Parse.bytes_eqb l l = true.
Proof.
  induction l as [|x l IH]; simpl; [reflexivity|].
  rewrite IH, andb_true_r. apply Byte.byte_dec_lb; reflexivity.
Qed.

Module DictFacts.
Import Parse.

Lemma dict_get_set (d : dict) (k v k' : Z) :
  dict_get (dict_set d k v) k' = if k =? k' then Some v else dict_get d k'.
Proof.
  induction d as [|[k0 v0] d IH]; simpl.
  - reflexivity.
  - destruct (Z.eqb_spec k0 k) as [->|Hne]; simpl.
    + destruct (k =? k'); reflexivity.
    + rewrite IH. destruct (Z.eqb_spec k0 k'), (Z.eqb_spec k k'); subst; try congruence.
Qed.

End DictFacts.

Lemma read_sizes_entries (es : list PayloadEntry.entry) (d : Parse.dict) (rest : list Byte.byte) :
  Parse.read_sizes (List.length es) d (flat_map PayloadEntry.entry_bytes es ++ rest) =
  Ok (fold_left (fun d e => Parse.dict_set d (PayloadEntry.entry_code e) (PayloadEntry.entry_size e)) es d,
      rest).
Proof.
  revert d; induction es as [|[[c hi] lo] es IH]; intros d; [reflexivity|].
  cbn [List.length flat_map Parse.read_sizes PayloadEntry.entry_bytes app fold_left].
  rewrite unpack_uint8_cons; cbn [bind].
  change (hi :: lo :: flat_map PayloadEntry.entry_bytes es ++ rest)
    with ([hi; lo] ++ (flat_map PayloadEntry.entry_bytes es ++ rest)).
  unfold unpack_uint16; rewrite read_unpack_app by reflexivity; cbn [bind].
  rewrite IH. unfold PayloadEntry.entry_code, PayloadEntry.entry_size, be_value; simpl.
  do 3 f_equal; try lia.
Qed.

Lemma fold_dict_set_get (es : list PayloadEntry.entry) (d : Parse.dict) (k : Z) :
  Parse.dict_get (fold_left (fun d e => Parse.dict_set d (PayloadEntry.entry_code e)
                                                         (PayloadEntry.entry_size e)) es d) k =
  match PayloadEntry.last_size es k with Some v => Some v | None => Parse.dict_get d k end.
Proof.
  revert d; induction es as [|e es IH]; intros d; simpl; [reflexivity|].
  rewrite IH, DictFacts.dict_get_set.
  destruct (PayloadEntry.last_size es k); [reflexivity|].
  destruct (PayloadEntry.entry_code e =? k); reflexivity.
Qed.

Lemma read_sizes_ok (n : nat) (d d' : Parse.dict) (s s' : list Byte.byte) :
  Parse.read_sizes n d s = Ok (d', s') -> s' = skipn (3 * n) s.
Proof.
  revert d s; induction n as [|n IH]; intros d s; cbn [Parse.read_sizes].
  - intros Hk; inversion Hk; reflexivity.
  - destruct (unpack_uint8 s) as [[c s1]|e] eqn:E1; simpl; [|discriminate].
    destruct (unpack_uint16 s1) as [[sz s2]|e] eqn:E2; simpl; [|discriminate].
    intros Hk; apply IH in Hk; subst.
    apply unpack_uint8_ok in E1 as [b [-> _]].
    apply read_unpack_ok in E2 as [-> _].
    rewrite skipn_skipn. replace (3 * S n)%nat with (S (3 * n + 2)) by lia.
    cbn [skipn]. f_equal. lia.
Qed.

(** ** [_parse_event_payloads], [_parse_event], [_parse] (parse.py) *)

(** The event-payloads block is decoded back into its entries: a block
    [0x35], size byte [3 n + 1], then [n] entries (code, big-endian [uint16]
    size) yields the byte count [2 + 3 n] and, for every code, the size of
    the code's last entry (a later entry for the same code replaces the
    earlier one in the [dict]); the stream is left just after the block. *)
Theorem event_payloads_round_trip (size_byte : Byte.byte) (es : list PayloadEntry.entry)
    (rest : list Byte.byte)
    (H : byte_val size_byte = 3 * Z.of_nat (List.length es) + 1) :
  exists sizes,
    Parse._parse_event_payloads
      (Byte.x35 :: size_byte :: flat_map PayloadEntry.entry_bytes es ++ rest)
    = Ok ((2 + 3 * Z.of_nat (List.length es), sizes), rest)
    /\ forall k, Parse.dict_get sizes k = PayloadEntry.last_size es k.
Proof.
  unfold Parse._parse_event_payloads.
  rewrite unpack_uint8_cons; cbn [bind]. rewrite unpack_uint8_cons; cbn [bind].
  rewrite H.
  replace (3 * Z.of_nat (List.length es) + 1 - 1) with (3 * Z.of_nat (List.length es)) by lia.
  replace (3 * Z.of_nat (List.length es) / 3) with (Z.of_nat (List.length es))
    by (rewrite Z.mul_comm, Z.div_mul; lia).
  replace (Z.of_nat (List.length es) * 3 =? 3 * Z.of_nat (List.length es)) with true
    by (symmetry; apply Z.eqb_eq; lia).
  simpl. rewrite Nat2Z.id, read_sizes_entries; simpl.
  eexists; split; [reflexivity|].
  intros k; rewrite fold_dict_set_get; destruct (PayloadEntry.last_size es k); reflexivity.
Qed.

Lemma event_payloads_round_trip_witness :
  byte_val Byte.x07 = 3 * Z.of_nat (List.length [(Byte.x37, Byte.x00, Byte.x40); (Byte.x37, Byte.x00, Byte.x41)]) + 1
  /\ exists sizes,
    Parse._parse_event_payloads
      (Byte.x35 :: Byte.x07 :: flat_map PayloadEntry.entry_bytes
                       [(Byte.x37, Byte.x00, Byte.x40); (Byte.x37, Byte.x00, Byte.x41)] ++ [])
    = Ok ((2 + 3 * Z.of_nat 2, sizes), [])
    /\ forall k, Parse.dict_get sizes k =
                 PayloadEntry.last_size [(Byte.x37, Byte.x00, Byte.x40); (Byte.x37, Byte.x00, Byte.x41)] k.
Proof.
  split; [reflexivity|].
  apply (event_payloads_round_trip Byte.x07
           [(Byte.x37, Byte.x00, Byte.x40); (Byte.x37, Byte.x00, Byte.x41)] []).
  reflexivity.
Defined.

(** Whenever [_parse_event_payloads] returns, the byte count it reports is
    [2 + 3 k] for a number of entries [k] of at most 84, and the stream is
    left exactly that many bytes further on. *)
Theorem event_payloads_consumes_reported_bytes (s s' : list Byte.byte) (n : Z)
    (sizes : Parse.dict)
    (H : Parse._parse_event_payloads s = Ok ((n, sizes), s')) :
  exists k : nat, n = 2 + 3 * Z.of_nat k /\ (k <= 84)%nat /\ s' = skipn (Z.to_nat n) s.
Proof.
  unfold Parse._parse_event_payloads in H.
  destruct (unpack_uint8 s) as [[code s1]|e] eqn:E1; cbn [bind negb] in H; [|discriminate].
  destruct (unpack_uint8 s1) as [[sz s2]|e] eqn:E2; cbn [bind negb] in H; [|discriminate].
  destruct (Parse.EventType_of code) as [et|e]; cbn [bind negb] in H; [|discriminate].
  destruct (negb (et =? Parse.EVENT_PAYLOADS)); [discriminate|].
  destruct (Z.eqb_spec ((sz - 1) / 3 * 3) (sz - 1)) as [Hdiv|]; cbn [bind negb] in H; [|discriminate].
  destruct (Parse.read_sizes (Z.to_nat ((sz - 1) / 3)) [] s2) as [[d s3]|e] eqn:E3;
    cbn [bind negb] in H; [|discriminate].
  remember (2 + (sz - 1)) as m eqn:Hm.
  injection H as Hn Hsz Hs; subst n sizes s' m.
  apply unpack_uint8_ok in E1 as [b1 [-> _]].
  apply unpack_uint8_ok in E2 as [b2 [-> ->]].
  apply read_sizes_ok in E3; subst s3.
  pose proof (byte_val_bound b2).
  set (q := (byte_val b2 - 1) / 3) in *.
  assert (0 <= q <= 84) by lia.
  exists (Z.to_nat q).
  repeat split; [lia|lia|].
  replace (Z.to_nat (2 + (byte_val b2 - 1))) with (S (S (3 * Z.to_nat q))) by lia.
  reflexivity.
Qed.

Lemma event_payloads_consumes_reported_bytes_witness :
  exists k : nat, 2 + 3 * Z.of_nat 1 = 2 + 3 * Z.of_nat k /\ (k <= 84)%nat
    /\ [Byte.xff] = skipn (Z.to_nat (2 + 3 * Z.of_nat 1))
                         [Byte.x35; Byte.x04; Byte.x37; Byte.x00; Byte.x40; Byte.xff].
Proof.
  apply (event_payloads_consumes_reported_bytes
           [Byte.x35; Byte.x04; Byte.x37; Byte.x00; Byte.x40; Byte.xff] [Byte.xff]
           (2 + 3 * Z.of_nat 1) [(0x37, 0x40)]).
  vm_compute. reflexivity.
Defined.

(** A block that does not start with the event-payloads code [0x35], or
    whose size byte minus one is not a multiple of 3 (a size byte of 0
    included), raises [ValueError]. *)
Theorem event_payloads_bad_block_value_error (c sz : Byte.byte) (s : list Byte.byte)
    (H : byte_val c <> 0x35 \/ (byte_val sz - 1) mod 3 <> 0) :
  exists msg, Parse._parse_event_payloads (c :: sz :: s) = Err (ValueError msg).
Proof.
  unfold Parse._parse_event_payloads.
  rewrite unpack_uint8_cons; cbn [bind]. rewrite unpack_uint8_cons; cbn [bind].
  unfold Parse.EventType_of.
  destruct (existsb (Z.eqb (byte_val c)) Parse.EventType_members); simpl; [|eauto].
  destruct (Z.eqb_spec (byte_val c) Parse.EVENT_PAYLOADS) as [Hc|]; simpl; [|eauto].
  destruct H as [H|H]; [unfold Parse.EVENT_PAYLOADS in Hc; contradiction|].
  destruct (Z.eqb_spec ((byte_val sz - 1) / 3 * 3) (byte_val sz - 1)) as [Hd|]; simpl; [|eauto].
  exfalso; apply H. rewrite <- Hd, Z.mod_mul; lia.
Qed.

Lemma event_payloads_bad_block_value_error_witness :
  exists msg, Parse._parse_event_payloads [Byte.x35; Byte.x00] = Err (ValueError msg).
Proof.
  apply (event_payloads_bad_block_value_error Byte.x35 Byte.x00 []).
  right; vm_compute; discriminate.
Defined.

(** [_parse_event] on a code with no entry in the payload-size table raises
    a plain [ValueError] (the [raise] sits outside the [try] that wraps
    errors in [ParseError]); on a code with an entry that is a key of
    [EVENT_TYPE_PARSE] (frame start, pre, post, item, frame end, game end)
    it raises [ParseError] from the [TypeError] of the extra
    [replay_version] argument, whatever bytes follow. *)
Theorem parse_event_rejects (sizes : Parse.dict) (c : Byte.byte) (s : list Byte.byte) :
  (Parse.dict_get sizes (byte_val c) = None ->
   Parse._parse_event sizes (c :: s) = Parse.PErr (Parse.Raised (ValueError "unexpected event type")))
  /\ (Parse.dict_get sizes (byte_val c) <> None ->
      In (byte_val c) Parse.EVENT_TYPE_PARSE_keys ->
      Parse._parse_event sizes (c :: s) = Parse.PErr (Parse.ParseError Parse.TypeError)).
Proof.
  unfold Parse._parse_event; rewrite unpack_uint8_cons; cbn [Parse.lift Parse.pbind].
  split.
  - intros ->; reflexivity.
  - intros Hs Hin. destruct (Parse.dict_get sizes (byte_val c)) as [size|]; [|congruence].
    cbn [read].
    replace (existsb (Z.eqb (byte_val c)) Parse.EVENT_TYPE_PARSE_keys) with true;
      [reflexivity|].
    symmetry; apply existsb_exists; exists (byte_val c); split; [exact Hin|apply Z.eqb_refl].
Qed.

Lemma parse_event_rejects_witness :
  Parse._parse_event [(0x37, 64)] [Byte.x37] =
    Parse.PErr (Parse.ParseError Parse.TypeError)
  /\ Parse._parse_event [(0x37, 64)] [Byte.x38] =
    Parse.PErr (Parse.Raised (ValueError "unexpected event type")).
Proof.
  split.
  - apply (proj2 (parse_event_rejects [(0x37, 64)] Byte.x37 [])).
    + vm_compute; discriminate.
    + vm_compute; auto 7.
  - apply (proj1 (parse_event_rejects [(0x37, 64)] Byte.x38 [])).
    vm_compute; reflexivity.
Defined.

(** For a code with a payload size that [EVENT_TYPE_PARSE] does not handle
    (the message splitter, the Gecko list, an unknown code), [_parse_event]
    returns [1 + size] as the number of bytes read and moves past the
    payload, also when fewer than [size] bytes are left: the count is then
    larger than what the stream held. *)
Theorem parse_event_reports_one_plus_size (sizes : Parse.dict) (c : Byte.byte)
    (s : list Byte.byte) (size : Z)
    (Hsize : Parse.dict_get sizes (byte_val c) = Some size)
    (Hcode : ~ In (byte_val c) Parse.EVENT_TYPE_PARSE_keys) :
  Parse._parse_event sizes (c :: s) =
    Parse.POk ((1 + size, byte_val c), skipn (Z.to_nat size) s).
Proof.
  unfold Parse._parse_event; rewrite unpack_uint8_cons; cbn [Parse.lift Parse.pbind].
  rewrite Hsize; cbn [read].
  destruct (existsb (Z.eqb (byte_val c)) Parse.EVENT_TYPE_PARSE_keys) eqn:E; [|reflexivity].
  apply existsb_exists in E as [x [Hx Ex]]; apply Z.eqb_eq in Ex; subst x; contradiction.
Qed.

Lemma parse_event_reports_one_plus_size_witness :
  Parse._parse_event [(0x10, 516)] [Byte.x10; Byte.x01; Byte.x02] =
    Parse.POk ((1 + 516, byte_val Byte.x10), skipn (Z.to_nat 516) [Byte.x01; Byte.x02]).
Proof.
  apply (parse_event_reports_one_plus_size [(0x10, 516)] Byte.x10 [Byte.x01; Byte.x02] 516).
  - vm_compute; reflexivity.
  - vm_compute; intuition discriminate.
Defined.

(** The opening of [_parse]: a stream that does not start with
    [b"{U\x03raw[$U#l"] raises [AssertionError]; after it, a declared
    [raw] length of 0 (an in-progress replay) stays 0, and any other length
    is reduced by the byte count of the event-payloads block. *)
Theorem parse_head_header_and_length (s : list Byte.byte) :
  (Parse.bytes_eqb (firstn 11 s) Parse.raw_header = false ->
   Parse._parse_head s = Parse.PErr Parse.AssertionError)
  /\ (forall (b1 b2 b3 b4 : Byte.byte) n d r,
        Parse._parse_event_payloads s = Ok ((n, d), r) ->
        let L := be_value [b1; b2; b3; b4] in
        let length := if L >=? 2 ^ 31 then L - 2 ^ 32 else L in
        Parse._parse_head (Parse.raw_header ++ [b1; b2; b3; b4] ++ s) =
          Parse.POk ((if length =? 0 then 0 else length - n, d), r)).
Proof.
  split.
  - intros H. unfold Parse._parse_head, Parse.expect_bytes, read.
    cbn [List.length Parse.raw_header]. rewrite H. reflexivity.
  - intros b1 b2 b3 b4 n d r H L length.
    unfold Parse._parse_head, Parse.expect_bytes, read.
    rewrite firstn_app, firstn_all, Nat.sub_diag, firstn_O, app_nil_r.
    rewrite skipn_app, skipn_all, Nat.sub_diag, skipn_O, bytes_eqb_refl.
    cbn [Parse.pbind]. rewrite app_nil_l. unfold Parse.unpack_int32.
    rewrite (read_unpack_app 4 [b1; b2; b3; b4] s) by reflexivity.
    cbn [bind Parse.lift Parse.pbind]. rewrite H. cbn [Parse.lift Parse.pbind].
    fold L. fold length.
    destruct (Z.eqb_spec length 0) as [E|E]; cbn [negb]; [rewrite E|]; reflexivity.
Qed.

Lemma parse_head_header_and_length_witness :
  Parse._parse_head [Byte.x00] = Parse.PErr Parse.AssertionError.
Proof.
  apply (proj1 (parse_head_header_and_length [Byte.x00])). reflexivity.
Defined.

(** ** [Start.SlippiVersion] (event.py) *)

(** [__ge__] is total: when [a >= b] is [False], [b >= a] is [True]. *)
Theorem version_ge_total (a b : Version.SlippiVersion)
    (H : Version.ge a (Version.VArg b) = Ok false) :
  Version.ge b (Version.VArg a) = Ok true.
Proof.
  destruct a as [ma mi ra], b as [mb nb rb]; unfold Version.ge, Version.ge_expr in *; simpl in *.
  injection H as H. f_equal.
  destruct (Z.gtb_spec ma mb), (Z.eqb_spec ma mb), (Z.gtb_spec mi nb), (Z.eqb_spec mi nb),
           (Z.geb_spec ra rb); simpl in H; try discriminate;
  destruct (Z.gtb_spec mb ma), (Z.eqb_spec mb ma), (Z.gtb_spec nb mi), (Z.eqb_spec nb mi),
           (Z.geb_spec rb ra); simpl; try reflexivity; lia.
Qed.

Lemma version_ge_total_witness :
  Version.ge (Version.mkVersion 1 2 0) (Version.VArg (Version.mkVersion 2 3 0)) = Ok false
  /\ Version.ge (Version.mkVersion 2 3 0) (Version.VArg (Version.mkVersion 1 2 0)) = Ok true.
Proof.
  split; [reflexivity|].
  apply version_ge_total; reflexivity.
Defined.

(** [__ge__] agrees with the lexicographic order of [(major, minor,
    revision)] whenever the major numbers are equal or the minor numbers
    differ: its missing major-equality check only matters for equal minor
    numbers under different major numbers. *)
Theorem version_ge_lexicographic_unless_same_minor (a b : Version.SlippiVersion)
    (H : Version.major a = Version.major b \/ Version.minor a <> Version.minor b) :
  Version.ge a (Version.VArg b) = Ok (Version.lex_ge_spec a b).
Proof.
  destruct a as [ma mi ra], b as [mb nb rb]; unfold Version.ge, Version.ge_expr,
    Version.lex_ge_spec in *; simpl in *. f_equal.
  destruct (Z.gtb_spec ma mb), (Z.eqb_spec ma mb), (Z.gtb_spec mi nb), (Z.eqb_spec mi nb),
           (Z.geb_spec ra rb); simpl; try reflexivity; lia.
Qed.

Lemma version_ge_lexicographic_unless_same_minor_witness :
  Version.ge (Version.mkVersion 3 0 5) (Version.VArg (Version.mkVersion 3 1 0)) = Ok false.
Proof.
  apply (version_ge_lexicographic_unless_same_minor
           (Version.mkVersion 3 0 5) (Version.mkVersion 3 1 0)).
  left; reflexivity.
Defined.

Lemma decimal_nonempty (fuel : nat) (n : Z) (acc : string) :
  (String.length acc <= String.length (VersionOps.decimal (S fuel) n acc))%nat
  /\ VersionOps.decimal (S fuel) n acc <> EmptyString.
Proof.
  revert n acc; induction fuel as [|fuel IH]; intros n acc; cbn [VersionOps.decimal].
  - destruct (n <? 10); simpl; split; try lia; try discriminate.
  - destruct (n <? 10); [simpl; split; [lia|discriminate]|].
    destruct (IH (n / 10) (String (VersionOps.digit (n mod 10)) acc)) as [H1 H2].
    split; [simpl in H1; lia|exact H2].
Qed.

Lemma string_length_append (a b : string) :
  String.length (a ++ b) = (String.length a + String.length b)%nat.
Proof. induction a as [|c a IH]; simpl; [reflexivity|rewrite IH; reflexivity]. Qed.

Lemma str_of_int_nonempty (n : Z) : (1 <= String.length (VersionOps.str_of_int n))%nat.
Proof.
  unfold VersionOps.str_of_int.
  destruct (n <? 0); [simpl; lia|].
  destruct (decimal_nonempty (Z.to_nat n) n EmptyString) as [_ H].
  destruct (VersionOps.decimal (S (Z.to_nat n)) n EmptyString); [congruence|simpl; lia].
Qed.

(** Comparing a version with its own printed form, [v == repr(v)] (for
    example [v == "3.12.0"]), raises [ValueError]: [__eq__] takes the
    [Sequence] branch for a [str], and the printed form, two dots and at
    least one digit per number, is never three characters long. *)
Theorem version_eq_own_repr_raises (v : Version.SlippiVersion) :
  VersionOps.eq v (VersionOps.EqStr (VersionOps.repr v)) =
    Err (ValueError "Incorrect Sequence for SlippiVersion").
Proof.
  unfold VersionOps.eq, VersionOps.repr.
  rewrite !string_length_append.
  pose proof (str_of_int_nonempty (Version.major v)).
  pose proof (str_of_int_nonempty (Version.minor v)).
  pose proof (str_of_int_nonempty (Version.revision v)).
  destruct (Nat.eqb_spec (String.length (VersionOps.str_of_int (Version.major v)) +
              (String.length "." + (String.length (VersionOps.str_of_int (Version.minor v)) +
               (String.length "." + String.length (VersionOps.str_of_int (Version.revision v))))))
              3) as [E|E]; [simpl in E; lia|reflexivity].
Qed.

(** ** [End._parse] (event.py) *)

Lemma method_of_ok (v : Z) : (exists m, GameEnd.Method_of v = Ok m) <-> In v [0; 1; 2; 3; 7].
Proof.
  unfold GameEnd.Method_of.
  destruct (Z.eqb_spec v 0); [subst; split; [simpl; auto|eauto]|].
  destruct (Z.eqb_spec v 1); [subst; split; [simpl; auto|eauto]|].
  destruct (Z.eqb_spec v 2); [subst; split; [simpl; auto|eauto]|].
  destruct (Z.eqb_spec v 3); [subst; split; [simpl; auto|eauto]|].
  destruct (Z.eqb_spec v 7); [subst; split; [simpl; auto 6|eauto]|].
  split; [intros [m Hm]; discriminate|simpl; intros; exfalso; lia].
Qed.

(** [End._parse] returns a record exactly when the payload is not empty and
    its first byte is a [Method] (0, 1, 2, 3 or 7): a short or missing
    LRAS byte or placement block never makes it fail. *)
Theorem end_parse_succeeds_iff_method (s : list Byte.byte) :
  (exists e, GameEnd._parse s = Ok e) <->
  (exists b t, s = b :: t /\ In (byte_val b) [0; 1; 2; 3; 7]).
Proof.
  destruct s as [|b t].
  - split; [intros [e He]; discriminate|intros (b & t & H & _); discriminate].
  - unfold GameEnd._parse. rewrite unpack_uint8_cons; cbn [bind].
    destruct (unpack_uint8 t) as [[l s2]|err]; cbn zeta;
    (split;
     [ intros [e He];
       destruct (GameEnd.Method_of (byte_val b)) as [m|err'] eqn:Em; [|discriminate];
       exists b, t; split; [reflexivity|]; apply method_of_ok; eauto
     | intros (b' & t' & Heq & Hin); injection Heq as <- <-;
       apply method_of_ok in Hin as [m Hm]; rewrite Hm; cbn [bind]; eauto ]).
Qed.

(** Whenever [End._parse] returns, [player_placements] is present exactly
    when the payload has at least 6 bytes (method, LRAS initiator and the
    four placements). *)
Theorem end_parse_placements_iff_six_bytes (s : list Byte.byte) (e : GameEnd.End)
    (H : GameEnd._parse s = Ok e) :
  GameEnd.player_placements e <> None <-> (6 <= List.length s)%nat.
Proof.
  unfold GameEnd._parse in H.
  destruct s as [|m [|l [|p1 [|p2 [|p3 [|p4 t]]]]]]; [discriminate|..];
    rewrite ?unpack_uint8_cons in H; cbn [bind] in H; simpl in H;
    destruct (GameEnd.Method_of _) in H; try discriminate;
    injection H as <-; simpl; split; intros; try lia; try congruence.
Qed.

Lemma end_parse_placements_iff_six_bytes_witness :
  GameEnd.player_placements
    (GameEnd.mkEnd GameEnd.GAME (Some 1) (Some [0; 1; 2; 3])) <> None
  <-> (6 <= List.length [Byte.x02; Byte.x01; Byte.x00; Byte.x01; Byte.x02; Byte.x03])%nat.
Proof.
  apply (end_parse_placements_iff_six_bytes
           [Byte.x02; Byte.x01; Byte.x00; Byte.x01; Byte.x02; Byte.x03]).
  vm_compute; reflexivity.
Defined.

Lemma end_parse_succeeds_iff_method_witness :
  exists e, GameEnd._parse [Byte.x02] = Ok e.
Proof.
  apply (proj2 (end_parse_succeeds_iff_method [Byte.x02])).
  exists Byte.x02, []; split; [reflexivity|simpl; auto].
Defined.

(** ** [Frame.Port.Data.Post._parse] (event.py) *)

(** The records [Post._parse] returns: [state_age] is always present, and
    the version-gated blocks are present up to some block and absent from
    there on. *)
Lemma post_parse_shape (s : list Byte.byte) (p : Post.Post) (H : Post._parse s = Ok p) :
  exists b sa,
    p = Post.build b (Some sa) None None None None None
    \/ (exists b2, p = Post.build b (Some sa) (Some b2) None None None None)
    \/ (exists b2 hb, p = Post.build b (Some sa) (Some b2) (Some hb) None None None)
    \/ (exists b2 hb sp, snd (snd sp) = snd (fst (fst sp)) /\
          p = Post.build b (Some sa) (Some b2) (Some hb) (Some sp) None None)
    \/ (exists b2 hb sp hl, snd (snd sp) = snd (fst (fst sp)) /\
          p = Post.build b (Some sa) (Some b2) (Some hb) (Some sp) (Some hl) None)
    \/ (exists b2 hb sp hl an, snd (snd sp) = snd (fst (fst sp)) /\
          p = Post.build b (Some sa) (Some b2) (Some hb) (Some sp) (Some hl) (Some an)).
Proof.
  unfold Post._parse in H.
  destruct (Post.read_base s) as [[b s1]|e]; cbn [bind] in H; [|discriminate].
  destruct (unpack_float s1) as [[sa s2]|[]]; cbn [Post.try_struct] in H; try discriminate.
  exists b, sa.
  destruct (Post.read_block2 s2) as [[b2 s3]|[]]; cbn [Post.try_struct] in H; try discriminate;
    [|injection H as <-; left; reflexivity].
  destruct (unpack_uint8 s3) as [[hb s4]|[]]; cbn [Post.try_struct] in H; try discriminate;
    [|injection H as <-; right; left; eauto].
  destruct (Post.read_speeds s4) as [[sp s5]|[]] eqn:Esp; cbn [Post.try_struct] in H;
    try discriminate; [|injection H as <-; do 2 right; left; eauto].
  assert (Hy : snd (snd sp) = snd (fst (fst sp))).
  { unfold Post.read_speeds in Esp.
    destruct (unpack_float s4) as [[ax t1]|]; cbn [bind] in Esp; [|discriminate].
    destruct (unpack_float t1) as [[ay t2]|]; cbn [bind] in Esp; [|discriminate].
    destruct (unpack_float t2) as [[kx t3]|]; cbn [bind] in Esp; [|discriminate].
    destruct (unpack_float t3) as [[ky t4]|]; cbn [bind] in Esp; [|discriminate].
    destruct (unpack_float t4) as [[gx t5]|]; cbn [bind] in Esp; [|discriminate].
    injection Esp as <- _; reflexivity. }
  destruct (unpack_float s5) as [[hl s6]|[]]; cbn [Post.try_struct] in H; try discriminate;
    [|injection H as <-; do 3 right; left; eauto].
  destruct (unpack_uint32 s6) as [[an s7]|[]]; cbn [Post.try_struct] in H; try discriminate;
    injection H as <-; do 4 right; [right|left]; eauto 8.
Qed.

(** Whenever [Post._parse] returns a record, its [state_age] is present
    (the handler that would leave it out raises), and each version-gated
    block is present only if the block before it is: the L-cancel/flags
    block before [hurtbox_status], that before the speeds, the speeds before
    [hitlag_remaining], and that before [animation_index]. *)
Theorem post_parse_blocks_cumulative (s : list Byte.byte) (p : Post.Post)
    (H : Post._parse s = Ok p) :
  Post.state_age p <> None
  /\ (Post.flags p = None -> Post.hurtbox_status p = None)
  /\ (Post.hurtbox_status p = None -> Post.self_air_speed p = None)
  /\ (Post.self_air_speed p = None -> Post.hitlag_remaining p = None)
  /\ (Post.hitlag_remaining p = None -> Post.animation_index p = None).
Proof.
  apply post_parse_shape in H as (b & sa & Hs).
  destruct Hs as [->|[(b2 & ->)|[(b2 & hb & ->)|[(b2 & hb & sp & _ & ->)|
                  [(b2 & hb & sp & hl & _ & ->)|(b2 & hb & sp & hl & an & _ & ->)]]]]];
    cbn; repeat split; congruence.
Qed.

(** Whenever [Post._parse] reads the speed block, the y component of the
    ground speed is the y component of the air speed: the payload has no
    separate ground y speed. *)
Theorem post_parse_ground_speed_y_is_air_y (s : list Byte.byte) (p : Post.Post)
    (g a : Z * Z)
    (H : Post._parse s = Ok p)
    (Hg : Post.self_ground_speed p = Some g) (Ha : Post.self_air_speed p = Some a) :
  snd g = snd a.
Proof.
  apply post_parse_shape in H as (b & sa & Hs).
  destruct Hs as [->|[(b2 & ->)|[(b2 & hb & ->)|[(b2 & hb & sp & Hy & ->)|
                  [(b2 & hb & sp & hl & Hy & ->)|(b2 & hb & sp & hl & an & Hy & ->)]]]]];
    cbn in Hg, Ha; try discriminate;
    injection Hg as <-; injection Ha as <-; exact Hy.
Qed.

Lemma post_parse_blocks_cumulative_witness :
  match Post._parse (post_payload_before_state_age ++ repeat Byte.x00 39) with
  | Ok p =>
      Post.state_age p <> None
      /\ (Post.flags p = None -> Post.hurtbox_status p = None)
      /\ (Post.hurtbox_status p = None -> Post.self_air_speed p = None)
      /\ (Post.self_air_speed p = None -> Post.hitlag_remaining p = None)
      /\ (Post.hitlag_remaining p = None -> Post.animation_index p = None)
  | Err _ => False
  end.
Proof.
  destruct (Post._parse (post_payload_before_state_age ++ repeat Byte.x00 39)) as [p|e] eqn:E.
  - exact (post_parse_blocks_cumulative _ p E).
  - vm_compute in E; discriminate.
Defined.

Lemma post_parse_ground_speed_y_is_air_y_witness :
  match Post._parse (post_payload_before_state_age ++ repeat Byte.x00 39) with
  | Ok p =>
      match Post.self_ground_speed p, Post.self_air_speed p with
      | Some g, Some a => snd g = snd a
      | _, _ => False
      end
  | Err _ => False
  end.
Proof.
  destruct (Post._parse (post_payload_before_state_age ++ repeat Byte.x00 39)) as [p|e] eqn:E.
  - destruct (Post.self_ground_speed p) as [g|] eqn:Eg;
      destruct (Post.self_air_speed p) as [a|] eqn:Ea;
      [exact (post_parse_ground_speed_y_is_air_y _ p g a E Eg Ea)|..];
      vm_compute in E; injection E as <-; discriminate.
  - vm_compute in E; discriminate.
Defined.

(** ** [Game._add_frame] *)

Lemma list_set_nth_error_other {A} (l : list A) (n j : nat) (x : A) :
  j <> n -> nth_error (list_set l n x) j = nth_error l j.
Proof.
  revert n j; induction l as [|y l IH]; intros [|n] [|j] Hne; simpl; auto; try lia;
    apply IH; lia.
Qed.

Lemma list_set_length {A} (l : list A) (n : nat) (x : A) :
  List.length (list_set l n x) = List.length l.
Proof. revert n; induction l as [|y l IH]; intros [|n]; simpl; auto. Qed.

(** A frame whose index lies below [FIRST_FRAME_INDEX], by [k] with
    [1 <= k <= len(frames)], is not refused: [idx] is negative, so
    [idx < count] takes the rollback branch and Python's negative indexing
    overwrites the frame [k] slots from the end. *)
Theorem add_frame_below_first_index_overwrites {I : Type} (frames : list (Frames.Frame I))
    (f : Frames.Frame I) (k : Z)
    (Hk : 1 <= k <= Z.of_nat (List.length frames))
    (Hi : Frames.index I f = Frames.FIRST_FRAME_INDEX - k) :
  Frames._add_frame I frames f = Ok (list_set frames (List.length frames - Z.to_nat k) f).
Proof.
  unfold Frames._add_frame, py_setitem. rewrite Hi.
  replace (Frames.FIRST_FRAME_INDEX - k - Frames.FIRST_FRAME_INDEX) with (- k) by lia.
  destruct (Z.eqb_spec (- k) (Z.of_nat (List.length frames))); [lia|].
  destruct (Z.ltb_spec (- k) (Z.of_nat (List.length frames))); [|lia].
  destruct (Z.ltb_spec (- k) 0); [|lia].
  destruct (Z.leb_spec 0 (Z.of_nat (List.length frames) + - k)); [|lia].
  destruct (Z.ltb_spec (Z.of_nat (List.length frames) + - k) (Z.of_nat (List.length frames)));
    [|lia].
  simpl. do 2 f_equal. lia.
Qed.

Lemma add_frame_below_first_index_overwrites_witness :
  Frames._add_frame unit [frame_with_pre (-123) Byte.x01; frame_with_pre (-122) Byte.x02]
    (frame_with_pre (-124) Byte.x03) =
  Ok (list_set [frame_with_pre (-123) Byte.x01; frame_with_pre (-122) Byte.x02]
               (2 - Z.to_nat 1) (frame_with_pre (-124) Byte.x03)).
Proof.
  apply (add_frame_below_first_index_overwrites
           [frame_with_pre (-123) Byte.x01; frame_with_pre (-122) Byte.x02]
           (frame_with_pre (-124) Byte.x03) 1).
  - simpl; lia.
  - reflexivity.
Defined.

Lemma add_frame_indexed_aux {I : Type} (frames frames' : list (Frames.Frame I))
    (f : Frames.Frame I)
    (Hinv : FrameSlots.indexed frames)
    (Hf : Frames.FIRST_FRAME_INDEX <= Frames.index I f)
    (H : Frames._add_frame I frames f = Ok frames') :
  FrameSlots.indexed frames'.
Proof.
  unfold Frames._add_frame in H.
  destruct (Z.eqb_spec (Frames.index I f - Frames.FIRST_FRAME_INDEX)
                       (Z.of_nat (List.length frames))) as [Heq|Hne].
  - injection H as <-. intros j g Hj.
    destruct (Nat.lt_ge_cases j (List.length frames)) as [Hlt|Hge].
    + rewrite nth_error_app1 in Hj by exact Hlt. exact (Hinv j g Hj).
    + rewrite nth_error_app2 in Hj by exact Hge.
      destruct (j - List.length frames)%nat as [|m] eqn:Em; simpl in Hj;
        [|destruct m; discriminate].
      injection Hj as <-. assert (j = List.length frames) by lia. subst j. lia.
  - destruct (Z.ltb_spec (Frames.index I f - Frames.FIRST_FRAME_INDEX)
                         (Z.of_nat (List.length frames))) as [Hlt|]; [|discriminate].
    unfold py_setitem in H.
    destruct (Z.ltb_spec (Frames.index I f - Frames.FIRST_FRAME_INDEX) 0); [lia|].
    destruct (Z.leb_spec 0 (Frames.index I f - Frames.FIRST_FRAME_INDEX)); [|lia].
    destruct (Z.ltb_spec (Frames.index I f - Frames.FIRST_FRAME_INDEX)
                         (Z.of_nat (List.length frames))); [|lia].
    simpl in H; injection H as <-. intros j g Hj.
    destruct (Nat.eq_dec j (Z.to_nat (Frames.index I f - Frames.FIRST_FRAME_INDEX))) as [->|Hjne].
    + rewrite list_set_nth_error in Hj by lia. injection Hj as <-. lia.
    + rewrite list_set_nth_error_other in Hj by exact Hjne. exact (Hinv j g Hj).
Qed.

(** [Game._add_frame] keeps every frame in the slot of its index: if each
    frame of [Game.frames] sits at position [index + 123], it still does
    after a frame of index at least [FIRST_FRAME_INDEX] is appended or
    replaces an earlier one. *)
Theorem add_frame_keeps_slots {I : Type} (frames frames' : list (Frames.Frame I))
    (f : Frames.Frame I)
    (Hinv : FrameSlots.indexed frames)
    (Hf : Frames.FIRST_FRAME_INDEX <= Frames.index I f)
    (H : Frames._add_frame I frames f = Ok frames') :
  FrameSlots.indexed frames'.
Proof. exact (add_frame_indexed_aux frames frames' f Hinv Hf H). Qed.

Lemma add_frame_keeps_slots_witness :
  FrameSlots.indexed
    (list_set [frame_with_pre (-123) Byte.x01; frame_with_pre (-122) Byte.x02] 1
              (frame_with_pre (-122) Byte.x03)).
Proof.
  apply (add_frame_keeps_slots
           [frame_with_pre (-123) Byte.x01; frame_with_pre (-122) Byte.x02] _
           (frame_with_pre (-122) Byte.x03)).
  - intros [|[|j]] g Hj; simpl in Hj;
      [injection Hj as <-; reflexivity|injection Hj as <-; reflexivity|destruct j; discriminate].
  - unfold Frames.FIRST_FRAME_INDEX; simpl; lia.
  - reflexivity.
Defined.

Section WavedashFacts.
Import Wavedash WavedashStats.

Lemma py_getitem_in_range {A} (l : list A) (i : Z) :
  0 <= i < Z.of_nat (List.length l) ->
  exists x, nth_error l (Z.to_nat i) = Some x /\ py_getitem l i = Ok x.
Proof.
  intros Hi. unfold py_getitem.
  destruct (nth_error l (Z.to_nat i)) as [x|] eqn:E.
  - exists x; split; [reflexivity|].
    replace (i <? 0) with false by (symmetry; apply Z.ltb_ge; lia).
    replace ((0 <=? i) && (i <? Z.of_nat (List.length l))) with true
      by (symmetry; apply andb_true_iff; split; [apply Z.leb_le|apply Z.ltb_lt]; lia).
    rewrite E; reflexivity.
  - apply nth_error_None in E; lia.
Qed.

Lemma skipn_cons_nth {A} (n : nat) (l : list A) (x : A) (r : list A) :
  skipn n l = x :: r -> nth_error l n = Some x /\ r = skipn (S n) l /\ (n < List.length l)%nat.
Proof.
  revert l; induction n as [|n IH]; intros [|y l] H; simpl in *; try discriminate.
  - injection H as -> ->; split; [reflexivity|split; [reflexivity|lia]].
  - destruct (IH l H) as (H1 & H2 & H3); split; [exact H1|split; [exact H2|lia]].
Qed.

Lemma knee_bend_loop_shape (frames : list PlayerFrame) (i j : Z) (ks : list Z) :
  forall w w', knee_bend_loop frames i j ks w = Ok w' ->
  w' = w \/ exists k, In k ks /\
    w' = mkWavedashData (frame_index w) (stocks_remaining w) k (stick w) (airdodge_frames w) false.
Proof.
  induction ks as [|k ks IH]; intros w w' H; cbn [knee_bend_loop] in H.
  - injection H as <-; left; reflexivity.
  - destruct (py_getitem frames (i - j - k)) as [pf|]; cbn [bind] in H; [|discriminate].
    destruct (post_state pf =? KNEE_BEND).
    + injection H as <-; right; exists k; split; [left|]; reflexivity.
    + destruct (IH w w' H) as [->|(k' & Hk & ->)]; [left; reflexivity|].
      right; exists k'; split; [right; exact Hk|reflexivity].
Qed.

Lemma trigger_loop_wf (frames : list PlayerFrame) (i : Z) (pf : PlayerFrame)
    (Hi : 0 <= i) (Hpf : nth_error frames (Z.to_nat i) = Some pf)
    (H43 : post_state pf = LAND_FALL_SPECIAL) (js : list Z) :
  forall st st', Forall (fun j => 0 <= j <= 4) js -> state_well_formed frames st ->
  trigger_loop frames i pf js st = Ok st' -> state_well_formed frames st'.
Proof.
  induction js as [|j js IH]; intros st st' Hjs Hst H; cbn [trigger_loop] in H.
  - injection H as <-; exact Hst.
  - inversion Hjs as [|? ? Hj Hjs']; subst.
    destruct (py_getitem frames (i - j)) as [past|]; cbn [bind] in H; [|discriminate].
    destruct (_ || _).
    + destruct (knee_bend_loop _ _ _ _ _) as [w|] eqn:Ek; cbn [bind] in H; [|discriminate].
      apply (IH (Some w) st' Hjs'); [|exact H].
      cbn [state_well_formed].
      destruct (knee_bend_loop_shape _ _ _ _ _ _ Ek) as [->|(k & Hk & ->)];
        unfold well_formed; cbn -[Z.to_nat].
      * repeat split; try lia. exists pf; repeat split; assumption.
      * simpl in Hk; repeat split; try lia; [exists pf; repeat split; assumption|..];
          intros; discriminate.
    + exact (IH st st' Hjs' Hst H).
Qed.

Lemma frame_loop_wf (frames : list PlayerFrame) (rest : list PlayerFrame) :
  forall i prev st out st' out',
  0 <= i -> rest = skipn (Z.to_nat i) frames ->
  state_well_formed frames st -> Forall (well_formed frames) out ->
  frame_loop frames i rest prev st out = Ok (st', out') ->
  state_well_formed frames st' /\ Forall (well_formed frames) out' /\
  exists added, out' = out ++ added.
Proof.
  induction rest as [|pf rest IH]; intros i prev st out st' out' Hi Hr Hst Hout H;
    cbn [frame_loop] in H.
  - injection H as <- <-; split; [exact Hst|split; [exact Hout|exists []; rewrite app_nil_r; reflexivity]].
  - symmetry in Hr; destruct (skipn_cons_nth _ _ _ _ Hr) as (Hpf & Hrest & Hlen).
    assert (Hnext : rest = skipn (Z.to_nat (i + 1)) frames)
      by (rewrite Hrest; f_equal; lia).
    destruct (if i >? 0 then _ else _) as [prev'|]; cbn [bind] in H; [|discriminate].
    destruct (negb (post_state pf =? LAND_FALL_SPECIAL)) eqn:E43.
    + exact (IH (i + 1) prev' st out st' out' ltac:(lia) Hnext Hst Hout H).
    + apply negb_false_iff, Z.eqb_eq in E43.
      destruct prev' as [pps|]; [|discriminate].
      destruct (pps =? LAND_FALL_SPECIAL).
      * exact (IH (i + 1) _ st out st' out' ltac:(lia) Hnext Hst Hout H).
      * destruct (trigger_loop frames i pf [0; 1; 2; 3; 4] st) as [st1|] eqn:Et;
          cbn [bind] in H; [|discriminate].
        assert (Hst1 : state_well_formed frames st1).
        { apply (trigger_loop_wf frames i pf Hi Hpf E43 [0; 1; 2; 3; 4] st st1); [|exact Hst|exact Et].
          repeat constructor; lia. }
        destruct st1 as [w|].
        -- destruct (IH (i + 1) _ _ _ st' out' ltac:(lia) Hnext Hst1
                        ltac:(apply Forall_app; split; [exact Hout|constructor; [exact Hst1|constructor]]) H)
             as (A & B & added & C).
           split; [exact A|split; [exact B|exists (w :: added); rewrite C, <- app_assoc; reflexivity]].
        -- exact (IH (i + 1) _ _ _ st' out' ltac:(lia) Hnext Hst1 Hout H).
Qed.

Lemma frame_loop_no_landing (frames : list PlayerFrame) (rest : list PlayerFrame) :
  forall i prev st out,
  0 <= i -> rest = skipn (Z.to_nat i) frames ->
  Forall (fun f => post_state f <> LAND_FALL_SPECIAL) rest ->
  frame_loop frames i rest prev st out = Ok (st, out).
Proof.
  induction rest as [|pf rest IH]; intros i prev st out Hi Hr Hno; cbn [frame_loop].
  - reflexivity.
  - inversion Hno as [|? ? Hpf Hno']; subst.
    symmetry in Hr; destruct (skipn_cons_nth _ _ _ _ Hr) as (Hnth & Hrest & Hlen).
    assert (Hnext : rest = skipn (Z.to_nat (i + 1)) frames)
      by (rewrite Hrest; f_equal; lia).
    assert (Hprev : exists prev', (if i >? 0 then
                  prev_player_frame <- py_getitem frames (i - 1) ;;
                  Ok (Some (post_state prev_player_frame))
                else Ok prev) = Ok prev').
    { destruct (i >? 0) eqn:Ei; [|eexists; reflexivity].
      apply Z.gtb_lt in Ei.
      destruct (py_getitem_in_range frames (i - 1) ltac:(lia)) as (x & _ & ->).
      eexists; reflexivity. }
    destruct Hprev as [prev' ->]; cbn [bind].
    replace (negb (post_state pf =? LAND_FALL_SPECIAL)) with true
      by (symmetry; apply negb_true_iff, Z.eqb_neq; exact Hpf).
    exact (IH (i + 1) prev' st out ltac:(lia) Hnext Hno').
Qed.

End WavedashFacts.

(** A player whose first frame is already [LAND_FALL_SPECIAL] makes
    [wavedash_compute] raise [UnboundLocalError]: [prev_player_state] is only
    assigned for [i > 0], and at [i == 0] it is read before any assignment. *)
Theorem wavedash_first_frame_landing_unbound (f : Wavedash.PlayerFrame)
    (rest : list Wavedash.PlayerFrame) (st : option Wavedash.WavedashData)
    (out : list Wavedash.WavedashData)
    (H : Wavedash.post_state f = Wavedash.LAND_FALL_SPECIAL) :
  Wavedash.wavedash_compute (f :: rest) st out = Err UnboundLocalError.
Proof.
  unfold Wavedash.wavedash_compute; cbn [Wavedash.frame_loop].
  replace (0 >? 0) with false by reflexivity; cbn [bind].
  rewrite H, Z.eqb_refl; reflexivity.
Qed.

Lemma wavedash_first_frame_landing_unbound_witness :
  Wavedash.post_state (wd_frame 43 0) = Wavedash.LAND_FALL_SPECIAL /\
  Wavedash.wavedash_compute (wd_frame 43 0 :: wd_frames) None [] = Err UnboundLocalError.
Proof.
  split; [reflexivity|].
  apply wavedash_first_frame_landing_unbound; reflexivity.
Defined.

(** If no frame of the player is in [LAND_FALL_SPECIAL], [wavedash_compute]
    neither raises nor appends a record, and leaves [_wavedash_state] as it
    was. *)
Theorem wavedash_no_landing_no_records (frames : list Wavedash.PlayerFrame)
    (st : option Wavedash.WavedashData) (out : list Wavedash.WavedashData)
    (H : Forall (fun f => Wavedash.post_state f <> Wavedash.LAND_FALL_SPECIAL) frames) :
  Wavedash.wavedash_compute frames st out = Ok (st, out).
Proof.
  unfold Wavedash.wavedash_compute.
  apply frame_loop_no_landing; [lia|reflexivity|exact H].
Qed.

Lemma wavedash_no_landing_no_records_witness :
  Forall (fun f => Wavedash.post_state f <> Wavedash.LAND_FALL_SPECIAL)
    [wd_frame 14 0; wd_frame 24 32; wd_frame 14 64] /\
  Wavedash.wavedash_compute [wd_frame 14 0; wd_frame 24 32; wd_frame 14 64] None [] = Ok (None, []).
Proof.
  assert (Hf : Forall (fun f => Wavedash.post_state f <> Wavedash.LAND_FALL_SPECIAL)
                 [wd_frame 14 0; wd_frame 24 32; wd_frame 14 64])
    by (repeat constructor; simpl; discriminate).
  split; [exact Hf|exact (wavedash_no_landing_no_records _ None [] Hf)].
Defined.

(** A wavedash trace: a knee bend on frames 1 and 2, R pressed on frame 3, a
    landing on frame 5. *)
Definition wd_trace : list Wavedash.PlayerFrame :=
  [wd_frame 14 0; wd_frame 24 0; wd_frame 24 0; wd_frame 14 32; wd_frame 14 0; wd_frame 43 0].

Definition wd_trace_record : Wavedash.WavedashData :=
  Wavedash.mkWavedashData 5 4 1 (0, 0) 2 false.

(** Starting from no [_wavedash_state] and an empty
    [player.stats.wavedashes] (as for the first player of a new
    [StatsComputer]), every record [wavedash_compute] appends describes a
    [LAND_FALL_SPECIAL] frame of the player, at its [frame_index], with its
    stocks and stick; its [trigger_frame] and [airdodge_frames] lie in
    [0 .. 4], and a waveland has trigger frame 0.  The state left behind is
    such a record or [None]. *)
Theorem wavedash_records_well_formed (frames : list Wavedash.PlayerFrame)
    (st' : option Wavedash.WavedashData) (out' : list Wavedash.WavedashData)
    (H : Wavedash.wavedash_compute frames None [] = Ok (st', out')) :
  WavedashStats.state_well_formed frames st' /\
  Forall (WavedashStats.well_formed frames) out'.
Proof.
  unfold Wavedash.wavedash_compute in H.
  destruct (frame_loop_wf frames frames 0 None None [] st' out' ltac:(lia) eq_refl Logic.I
              (Forall_nil _) H) as (Hst & Hout & _).
  split; [exact Hst|exact Hout].
Qed.

Lemma wavedash_records_well_formed_witness :
  Wavedash.wavedash_compute wd_trace None [] = Ok (Some wd_trace_record, [wd_trace_record]) /\
  Forall (WavedashStats.well_formed wd_trace) [wd_trace_record].
Proof.
  assert (E : Wavedash.wavedash_compute wd_trace None [] =
              Ok (Some wd_trace_record, [wd_trace_record])) by (vm_compute; reflexivity).
  split; [exact E|].
  exact (proj2 (wavedash_records_well_formed wd_trace _ _ E)).
Defined.

(** [total_startup()] of a record that [wavedash_compute] appends, starting
    from no state, lies in [0 .. 8]; for a waveland it is the number of
    airdodge frames. *)
Theorem wavedash_total_startup_bounded (frames : list Wavedash.PlayerFrame)
    (st' : option Wavedash.WavedashData) (out' : list Wavedash.WavedashData)
    (H : Wavedash.wavedash_compute frames None [] = Ok (st', out')) :
  Forall (fun w => 0 <= WavedashStats.total_startup w <= 8 /\
                   (Wavedash.waveland w = true ->
                    WavedashStats.total_startup w = Wavedash.airdodge_frames w)) out'.
Proof.
  unfold Wavedash.wavedash_compute in H.
  destruct (frame_loop_wf frames frames 0 None None [] st' out' ltac:(lia) eq_refl Logic.I
              (Forall_nil _) H) as (_ & Hout & _).
  eapply Forall_impl; [|exact Hout].
  intros w (_ & _ & Ht & Ha & Hw); unfold WavedashStats.total_startup.
  split; [lia|intros Hl; rewrite (Hw Hl); lia].
Qed.

Lemma wavedash_total_startup_bounded_witness :
  Wavedash.wavedash_compute wd_trace None [] = Ok (Some wd_trace_record, [wd_trace_record]) /\
  Forall (fun w => 0 <= WavedashStats.total_startup w <= 8 /\
                   (Wavedash.waveland w = true ->
                    WavedashStats.total_startup w = Wavedash.airdodge_frames w)) [wd_trace_record].
Proof.
  assert (E : Wavedash.wavedash_compute wd_trace None [] =
              Ok (Some wd_trace_record, [wd_trace_record])) by (vm_compute; reflexivity).
  split; [exact E|exact (wavedash_total_startup_bounded wd_trace _ _ E)].
Defined.

Module SDIMore.
Import SDI.

Lemma sdi_step_cases (prev : option JoystickRegion) (r : JoystickRegion) (acc : list JoystickRegion) :
  sdi_step prev r acc = acc \/
  (prev <> None /\ r <> DEAD_ZONE /\ sdi_step prev r acc = acc ++ [r]).
Proof.
  unfold sdi_step.
  destruct prev as [p|]; [|left; reflexivity].
  destruct (region_eqb r DEAD_ZONE) eqn:E; [left; reflexivity|].
  assert (Hr : r <> DEAD_ZONE) by (intros ->; discriminate).
  repeat match goal with
  | |- context [if ?c then _ else _] => destruct c
  end; first [left; reflexivity | right; split; [discriminate|split; [exact Hr|reflexivity]]].
Qed.

Lemma sdi_step_app (prev : option JoystickRegion) (r : JoystickRegion) (acc : list JoystickRegion) :
  sdi_step prev r acc = acc ++ sdi_step prev r [].
Proof.
  unfold sdi_step; destruct prev as [p|]; [|rewrite app_nil_r; reflexivity].
  repeat match goal with
  | |- context [if ?c then _ else _] => destruct c
  end; rewrite ?app_nil_r, ?app_nil_l; reflexivity.
Qed.

Lemma sdi_loop_app (prev : option JoystickRegion) (regions acc : list JoystickRegion) :
  sdi_loop prev regions acc = acc ++ sdi_loop prev regions [].
Proof.
  revert prev acc; induction regions as [|r rest IH]; intros prev acc; cbn [sdi_loop].
  - rewrite app_nil_r; reflexivity.
  - rewrite IH, (IH _ (sdi_step prev r [])), sdi_step_app, app_assoc; reflexivity.
Qed.

Lemma sdi_loop_sub (rest : list JoystickRegion) :
  forall prev acc, exists added, sdi_loop prev rest acc = acc ++ added /\
    Forall (fun r => r <> DEAD_ZONE /\ In r rest) added /\
    (List.length added <= List.length rest)%nat.
Proof.
  induction rest as [|r rest IH]; intros prev acc; cbn [sdi_loop].
  - exists []; split; [rewrite app_nil_r; reflexivity|split; [constructor|simpl; lia]].
  - destruct (IH (Some r) (sdi_step prev r acc)) as (added & E & Hf & Hl).
    destruct (sdi_step_cases prev r acc) as [S|(_ & Hr & S)].
    + exists added; split; [rewrite E, S; reflexivity|split].
      * eapply Forall_impl; [|exact Hf]; intros x [Hx Hin]; split; [exact Hx|right; exact Hin].
      * simpl; lia.
    + exists (r :: added); split; [rewrite E, S, <- app_assoc; reflexivity|split].
      * constructor; [split; [exact Hr|left; reflexivity]|].
        eapply Forall_impl; [|exact Hf]; intros x [Hx Hin]; split; [exact Hx|right; exact Hin].
      * simpl; lia.
Qed.

Lemma region_eqb_refl (r : JoystickRegion) : region_eqb r r = true.
Proof. apply Z.eqb_refl. Qed.

Lemma sdi_loop_stutter (l1 l2 : list JoystickRegion) (r : JoystickRegion) :
  forall prev acc,
  sdi_loop prev (l1 ++ r :: r :: l2) acc = sdi_loop prev (l1 ++ r :: l2) acc.
Proof.
  induction l1 as [|a l1 IH]; intros prev acc; cbn [app sdi_loop].
  - f_equal. unfold sdi_step at 1. rewrite region_eqb_refl.
    destruct (region_eqb r DEAD_ZONE); reflexivity.
  - apply IH.
Qed.

End SDIMore.

(** The SDI inputs [_find_valid_sdi] extracts from a list of regions are
    regions of that list after its first one, never [DEAD_ZONE], and there
    are at most as many as the regions after the first (the first region
    only serves as the previous region of the second). *)
Theorem find_valid_sdi_from_later_regions (r0 : SDI.JoystickRegion) (rest : list SDI.JoystickRegion) :
  Forall (fun r => r <> SDI.DEAD_ZONE /\ In r rest) (SDI.find_valid_sdi (r0 :: rest)) /\
  (List.length (SDI.find_valid_sdi (r0 :: rest)) <= List.length rest)%nat.
Proof.
  unfold SDI.find_valid_sdi, SDI._find_valid_sdi; cbn [SDI.sdi_inputs SDI.stick_regions_during_hitlag
    SDI.sdi_loop SDI.sdi_step].
  destruct (SDIMore.sdi_loop_sub rest (Some r0) []) as (added & -> & Hf & Hl).
  split; [exact Hf|exact Hl].
Qed.

(** A region held on consecutive frames counts once: repeating a region
    right after itself in the hitlag regions never changes the extracted SDI
    inputs. *)
Theorem find_valid_sdi_ignores_repeats (l1 l2 : list SDI.JoystickRegion) (r : SDI.JoystickRegion) :
  SDI.find_valid_sdi (l1 ++ r :: r :: l2) = SDI.find_valid_sdi (l1 ++ r :: l2).
Proof.
  unfold SDI.find_valid_sdi, SDI._find_valid_sdi; cbn [SDI.sdi_inputs SDI.stick_regions_during_hitlag].
  apply SDIMore.sdi_loop_stutter.
Qed.

(** [_find_valid_sdi] appends to [sdi_inputs] rather than resetting it:
    calling it a second time on the same record lists every extracted input
    twice. *)
Theorem find_valid_sdi_twice_duplicates (d : SDI.TakeHitData) :
  SDI.sdi_inputs (SDI._find_valid_sdi (SDI._find_valid_sdi d)) =
  SDI.sdi_inputs d ++ SDI.find_valid_sdi (SDI.stick_regions_during_hitlag d)
                   ++ SDI.find_valid_sdi (SDI.stick_regions_during_hitlag d).
Proof.
  destruct d as [regions acc]; unfold SDI.find_valid_sdi, SDI._find_valid_sdi;
    cbn [SDI.sdi_inputs SDI.stick_regions_during_hitlag].
  rewrite SDIMore.sdi_loop_app, (SDIMore.sdi_loop_app None regions acc), app_assoc; reflexivity.
Qed.

Section OpponentFacts.
Import Computer Opponent.

Lemma hd_error_app_single {A} (l : list A) (a : A) :
  hd_error (l ++ [a]) = match hd_error l with Some x => Some x | None => Some a end.
Proof. destruct l; reflexivity. Qed.

Lemma opponent_loop_eq (identifier : Identifier) (players : list Player) :
  forall opponent valid_id,
  opponent_loop identifier players opponent valid_id =
  (match hd_error (rev (filter (fun p => negb (is_identified identifier p)) players)) with
   | Some x => Some x
   | None => opponent
   end,
   valid_id || existsb (is_identified identifier) players).
Proof.
  induction players as [|p rest IH]; intros opponent valid_id; cbn [opponent_loop].
  - rewrite orb_false_r; reflexivity.
  - cbn [filter existsb].
    destruct (is_identified identifier p); cbn [negb rev]; rewrite IH.
    + rewrite orb_true_r, orb_true_l; reflexivity.
    + rewrite hd_error_app_single, orb_false_l.
      destruct (hd_error _); reflexivity.
Qed.

End OpponentFacts.

(** [get_opponent] succeeds exactly when some player matches the
    identifier, and then returns the last player that does not match, or
    [None] when every player matches (two players with the same connect
    code, say). *)
Theorem get_opponent_last_unmatched (players : list Computer.Player)
    (identifier : Computer.Identifier) (opponent : option Computer.Player) :
  Opponent.get_opponent players identifier = Ok opponent <->
  existsb (Opponent.is_identified identifier) players = true /\
  opponent = hd_error (rev (filter (fun p => negb (Opponent.is_identified identifier p)) players)).
Proof.
  unfold Opponent.get_opponent; rewrite opponent_loop_eq, orb_false_l.
  destruct (existsb _ players).
  - split.
    + intros Hk; injection Hk as <-; split; [reflexivity|].
      destruct (hd_error _); reflexivity.
    + intros [_ ->]; destruct (hd_error _); reflexivity.
  - split; [discriminate|intros [Hf _]; discriminate].
Qed.

(** On two players with different connect codes, the player [get_player]
    finds for a connect code and the one [get_opponent] returns for it are
    the two players of the game. *)
Theorem get_player_and_opponent_by_code (p q x : Computer.Player) (s : string)
    (Hd : Computer.connect_code p <> Computer.connect_code q)
    (H : Computer.get_player [p; q] (Computer.IdStr s) = Ok x) :
  (x = p /\ Opponent.get_opponent [p; q] (Computer.IdStr s) = Ok (Some q)) \/
  (x = q /\ Opponent.get_opponent [p; q] (Computer.IdStr s) = Ok (Some p)).
Proof.
  unfold Computer.get_player in H; cbn [Computer.upper bind find] in H.
  unfold Opponent.get_opponent; cbn [Opponent.opponent_loop Opponent.is_identified].
  destruct p as [pp [pc|]], q as [qp [qc|]]; cbn [Computer.connect_code Computer.code_eq] in *;
    try discriminate.
  - destruct (String.eqb_spec pc s) as [->|Hp]; destruct (String.eqb_spec qc s) as [->|Hq].
    + congruence.
    + left; injection H as <-; split; reflexivity.
    + right; injection H as <-; split; reflexivity.
    + discriminate.
  - destruct (String.eqb_spec pc s); [|discriminate].
    left; injection H as <-; split; reflexivity.
  - destruct (String.eqb_spec qc s); [|discriminate].
    right; injection H as <-; split; reflexivity.
Qed.

Lemma get_player_and_opponent_by_code_witness :
  Computer.get_player two_players (Computer.IdStr "XYZ#987") =
    Ok (Computer.mkPlayer 1 (Some "XYZ#987"%string)) /\
  Opponent.get_opponent two_players (Computer.IdStr "XYZ#987") =
    Ok (Some (Computer.mkPlayer 0 (Some "ABC#123"%string))).
Proof.
  assert (E : Computer.get_player two_players (Computer.IdStr "XYZ#987") =
              Ok (Computer.mkPlayer 1 (Some "XYZ#987"%string))) by reflexivity.
  split; [exact E|].
  destruct (get_player_and_opponent_by_code (Computer.mkPlayer 0 (Some "ABC#123"%string))
              (Computer.mkPlayer 1 (Some "XYZ#987"%string)) _ _ ltac:(discriminate) E)
    as [[Hx _]|[_ Ho]]; [discriminate|exact Ho].
Defined.

Section PrimeFacts.
Import Computer Prime.

Definition is_occupied (r : Replay) (port : Z) : bool :=
  match py_getitem (start_players r) port with
  | Ok (Some _) => true
  | _ => false
  end.

Lemma port_loop_shape (r : Replay) (ports : list Z) :
  forall chars ps ps', port_loop r ports chars ps = Ok ps' ->
  (List.length (filter (is_occupied r) ports) <= List.length chars)%nat /\
  map (fun p => Computer.port (player p)) ps' =
    map (fun p => Computer.port (player p)) ps ++ filter (is_occupied r) ports /\
  map characters ps' = map characters ps ++ firstn (List.length (filter (is_occupied r) ports)) chars.
Proof.
  induction ports as [|port ports IH]; intros chars ps ps' H; cbn [port_loop] in H.
  - injection H as <-; cbn; rewrite !app_nil_r; split; [lia|split; reflexivity].
  - destruct (compute_did_win r port) as [dw|]; cbn [bind] in H; [|discriminate].
    cbn [filter].
    destruct (py_getitem (start_players r) port) as [[c|]|] eqn:Eg; cbn [bind] in H; [| |discriminate].
    2: { replace (is_occupied r port) with false by (unfold is_occupied; rewrite Eg; reflexivity).
         exact (IH _ _ _ H). }
    replace (is_occupied r port) with true by (unfold is_occupied; rewrite Eg; reflexivity).
    destruct chars as [|ch chars]; [discriminate|].
    destruct (py_getitem (meta_codes r) port) as [[code|]|]; cbn [bind] in H; [|discriminate|discriminate].
    destruct (leaders (frames r) port); cbn [bind] in H; [|discriminate].
    destruct (IH _ _ _ H) as (Hl & Hp & Hc).
    rewrite map_app in Hp, Hc; cbn [map List.length firstn] in *.
    rewrite <- app_assoc in Hp, Hc; split; [lia|split; assumption].
Qed.

Lemma start_slots (r : Replay) :
  List.length (start_players r) = 4%nat ->
  exists s0 s1 s2 s3, start_players r = [s0; s1; s2; s3].
Proof.
  destruct (start_players r) as [|s0 [|s1 [|s2 [|s3 [|]]]]]; try discriminate.
  intros _; exists s0, s1, s2, s3; reflexivity.
Qed.

Lemma occupied_ports (r : Replay) (s0 s1 s2 s3 : option Z) :
  start_players r = [s0; s1; s2; s3] ->
  filter (is_occupied r) Port_members =
    match s3 with Some _ => [-1] | None => [] end ++
    match s0 with Some _ => [0] | None => [] end ++
    match s1 with Some _ => [1] | None => [] end ++
    match s2 with Some _ => [2] | None => [] end ++
    match s3 with Some _ => [3] | None => [] end.
Proof. intros Hs; unfold is_occupied; rewrite Hs; destruct s0, s1, s2, s3; reflexivity. Qed.

End PrimeFacts.

(** [prime_replay] never completes when [P4] holds a player: [for port in
    Port] starts with [Port.NONE] ([-1]), and [start.players[-1]] is the
    [P4] slot, so that player is appended twice and the loop pops one
    character pair more than [characters] holds (or a [PlayerCountError] or
    another exception comes first). *)
Theorem prime_replay_p4_occupied_fails (players : list Prime.PrimedPlayer) (r : Prime.Replay)
    (c : Z) (Hlen : List.length (Prime.start_players r) = 4%nat)
    (H4 : nth_error (Prime.start_players r) 3 = Some (Some c)) :
  exists e, Prime.prime_players players r = Prime.Fail e.
Proof.
  destruct (start_slots r Hlen) as (s0 & s1 & s2 & s3 & Hs).
  rewrite Hs in H4; injection H4 as ->.
  unfold Prime.prime_players.
  destruct (Prime.port_loop r Prime.Port_members _ players) as [ps'|e] eqn:E;
    [|destruct (negb _); eexists; reflexivity].
  apply port_loop_shape in E; destruct E as (Hl & _ & _).
  rewrite (occupied_ports r _ _ _ _ Hs) in Hl; rewrite Hs in Hl |- *.
  destruct s0, s1, s2; cbn in Hl |- *; try lia; eexists; reflexivity.
Qed.

Definition p4_replay : Prime.Replay :=
  Prime.mkReplay [Some 2; None; None; Some 9] [Some (Some "ABC#123"%string); None; None; Some (Some "XYZ#987"%string)]
                 None [].

Lemma prime_replay_p4_occupied_fails_witness :
  List.length (Prime.start_players p4_replay) = 4%nat /\
  nth_error (Prime.start_players p4_replay) 3 = Some (Some 9) /\
  Prime.prime_players [] p4_replay = Prime.Fail (Prime.Raised IndexError).
Proof.
  split; [reflexivity|split; [reflexivity|]].
  destruct (prime_replay_p4_occupied_fails [] p4_replay 9 eq_refl eq_refl) as [e He].
  rewrite He; vm_compute in He; rewrite <- He; reflexivity.
Defined.

(** A completed [prime_replay] started from a computer with no players (a
    second priming of the same computer always fails, [self.players] is never
    emptied), with [P4] empty, and yields the two occupied ports among
    [P1 .. P3] in port order; the first player gets the character pair
    [(ca, cb)], the second [(cb, ca)]. *)
Theorem prime_replay_two_players (players ps : list Prime.PrimedPlayer) (r : Prime.Replay)
    (Hlen : List.length (Prime.start_players r) = 4%nat)
    (H : Prime.prime_players players r = Prime.Done ps) :
  players = [] /\ nth_error (Prime.start_players r) 3 = Some None /\
  exists a b ca cb, 0 <= a < b /\ b <= 2 /\
    nth_error (Prime.start_players r) (Z.to_nat a) = Some (Some ca) /\
    nth_error (Prime.start_players r) (Z.to_nat b) = Some (Some cb) /\
    map (fun p => Computer.port (Prime.player p)) ps = [a; b] /\
    map Prime.characters ps = [[ca; cb]; [cb; ca]].
Proof.
  destruct (start_slots r Hlen) as (s0 & s1 & s2 & s3 & Hs).
  unfold Prime.prime_players in H.
  destruct (Prime.port_loop r Prime.Port_members _ players) as [ps'|e] eqn:E;
    [|destruct (negb _); discriminate].
  apply port_loop_shape in E; destruct E as (Hl & Hp & Hc).
  destruct (negb (Nat.eqb (List.length _) 2)) eqn:Ec; [discriminate|].
  destruct (negb (Nat.eqb (List.length ps') 2)) eqn:Ep; [discriminate|].
  injection H as ->.
  apply negb_false_iff, Nat.eqb_eq in Ep.
  assert (Hlp := f_equal (@List.length _) Hp); rewrite length_app, !length_map in Hlp.
  rewrite (occupied_ports r _ _ _ _ Hs) in Hl, Hp, Hc, Hlp; rewrite Ep in Hlp.
  rewrite Hs in Ec, Hl, Hc |- *.
  destruct s0 as [c0|], s1 as [c1|], s2 as [c2|], s3 as [c3|];
    cbn in Ec, Hl, Hp, Hc, Hlp; try discriminate; try lia;
    (destruct players; [|cbn in Hlp; lia]); cbn in Hp, Hc;
    (split; [reflexivity|split; [reflexivity|]]).
  - exists 0, 1, c0, c1; repeat split; try lia; first [reflexivity|assumption].
  - exists 0, 2, c0, c2; repeat split; try lia; first [reflexivity|assumption].
  - exists 1, 2, c1, c2; repeat split; try lia; first [reflexivity|assumption].
Qed.

Definition p1_p3_replay : Prime.Replay :=
  Prime.mkReplay [Some 2; None; Some 9; None] [Some (Some "ABC#123"%string); None; Some (Some "XYZ#987"%string); None]
                 (Some (GameEnd.mkEnd GameEnd.GAME None (Some [0; 4; 1; 4]))) [].

Lemma prime_replay_two_players_witness :
  Prime.prime_players [] p1_p3_replay =
    Prime.Done [Prime.mkPrimed (Computer.mkPlayer 0 (Some "ABC#123"%string)) [2; 9] true;
                Prime.mkPrimed (Computer.mkPlayer 2 (Some "XYZ#987"%string)) [9; 2] false] /\
  nth_error (Prime.start_players p1_p3_replay) 3 = Some None.
Proof.
  assert (E : Prime.prime_players [] p1_p3_replay =
    Prime.Done [Prime.mkPrimed (Computer.mkPlayer 0 (Some "ABC#123"%string)) [2; 9] true;
                Prime.mkPrimed (Computer.mkPlayer 2 (Some "XYZ#987"%string)) [9; 2] false])
    by (vm_compute; reflexivity).
  split; [exact E|].
  exact (proj1 (proj2 (prime_replay_two_players [] _ p1_p3_replay eq_refl E))).
Defined.

(** [SlippiVersion._parse] reads exactly four bytes, major, minor, revision
    and the dropped build number, and raises [struct.error] on a stream of
    fewer than four bytes. *)
Theorem version_parse_four_bytes (s : list Byte.byte) :
  VersionOps._parse s =
  match s with
  | b1 :: b2 :: b3 :: _ :: rest =>
      Ok (Version.mkVersion (byte_val b1) (byte_val b2) (byte_val b3), rest)
  | _ => Err StructError
  end.
Proof.
  unfold VersionOps._parse.
  destruct s as [|b1 [|b2 [|b3 [|b4 rest]]]]; rewrite ?unpack_uint8_cons, ?unpack_uint8_nil;
    cbn [bind]; rewrite ?unpack_uint8_cons, ?unpack_uint8_nil; cbn [bind];
    rewrite ?unpack_uint8_cons, ?unpack_uint8_nil; cbn [bind];
    rewrite ?unpack_uint8_cons, ?unpack_uint8_nil; reflexivity.
Qed.

Section DecoderRuns.
Import Parse ParseEvents.

Context {S I : Type} (Start_parse : list Byte.byte -> result S)
  (seek_cur : Z -> list Byte.byte -> presult (list Byte.byte)).

(** What a run of the handlers may do to the game: [frames] is untouched,
    [start] and [end] are kept or reset to [None]. *)
Definition game_kept (g g' : Game S I) : Prop :=
  frames S I g' = frames S I g /\
  (start S I g' = start S I g \/ start S I g' = None) /\
  (end_ S I g' = end_ S I g \/ end_ S I g' = None).

Lemma game_kept_refl (g : Game S I) : game_kept g g.
Proof. repeat split; left; reflexivity. Qed.

Lemma game_kept_trans (g1 g2 g3 : Game S I) :
  game_kept g1 g2 -> game_kept g2 g3 -> game_kept g1 g3.
Proof.
  intros [F1 [S1 E1]] [F2 [S2 E2]]; split; [congruence|split].
  - destruct S2 as [-> | ->]; [exact S1|right; reflexivity].
  - destruct E2 as [-> | ->]; [exact E1|right; reflexivity].
Qed.

Lemma thing_none (c : Z) (g g' : Game S I) (skip_frames : bool) (total_size bytes_read : Z)
    (payload_sizes : dict) (s s' : list Byte.byte) (cf : option (Frames.Frame I)) :
  thing S I seek_cur c None g skip_frames total_size bytes_read payload_sizes s =
    POk ((cf, g'), s') ->
  cf = None /\ game_kept g g'.
Proof.
  unfold thing, _game_start, _game_end, _frame_handler.
  destruct (c =? 0x36).
  - destruct (skip_frames && negb (total_size =? 0)).
    + destruct (dict_get payload_sizes 0x39); [|discriminate].
      destruct (seek_cur _ s); cbn [pbind]; [|discriminate].
      intros Hk; injection Hk as <- <- _.
      split; [reflexivity|split; [reflexivity|split; [right|left]; reflexivity]].
    + intros Hk; injection Hk as <- <- _.
      split; [reflexivity|split; [reflexivity|split; [right|left]; reflexivity]].
  - destruct (existsb (Z.eqb c) [0x3A; 0x37; 0x38; 0x3B; 0x3C]); [discriminate|].
    destruct (c =? 0x39).
    + intros Hk; injection Hk as <- <- _.
      split; [reflexivity|split; [reflexivity|split; [left|right]; reflexivity]].
    + destruct (c =? 16); [|discriminate].
      intros Hk; injection Hk as <- <- _; split; [reflexivity|apply game_kept_refl].
Qed.

Lemma loop_none (payload_sizes : dict) (total_size : Z) (skip_frames : bool) (fuel : nat) :
  forall g g' bytes_read s s' cf,
  loop S I seek_cur fuel payload_sizes total_size skip_frames None g bytes_read s =
    POk ((cf, g'), s') ->
  cf = None /\ game_kept g g'.
Proof.
  induction fuel as [|fuel IH]; intros g g' bytes_read s s' cf; cbn [loop].
  - intros Hk; injection Hk as <- <- _; split; [reflexivity|apply game_kept_refl].
  - destruct ((total_size =? 0) || (bytes_read <? total_size)).
    + destruct (_parse_event payload_sizes s) as [[[b c] s1]|]; cbn [pbind]; [|discriminate].
      destruct (thing S I seek_cur c None g skip_frames total_size (bytes_read + b)
                  payload_sizes s1) as [[[cf1 g1] s2]|] eqn:E; cbn [pbind]; [|discriminate].
      destruct (thing_none _ _ _ _ _ _ _ _ _ _ E) as [-> Hk1].
      intros H; destruct (IH _ _ _ _ _ _ H) as [Hcf Hk2].
      split; [exact Hcf|exact (game_kept_trans _ _ _ Hk1 Hk2)].
    + intros Hk; injection Hk as <- <- _; split; [reflexivity|apply game_kept_refl].
Qed.

Lemma parse_events_kept (payload_sizes : dict) (total_size : Z) (skip_frames : bool)
    (g g' : Game S I) (stream stream' : list Byte.byte) :
  _parse_events S Start_parse I seek_cur payload_sizes total_size skip_frames g stream =
    POk (g', stream') ->
  game_kept g g'.
Proof.
  unfold _parse_events.
  destruct (unpack_uint8 stream) as [[code s1]|]; cbn [lift pbind]; [|discriminate].
  destruct (negb (code =? 0x36)); [discriminate|].
  destruct (dict_get payload_sizes code) as [b|]; [|discriminate].
  destruct (read (Z.to_nat b) s1) as [block s2].
  destruct (Start_parse block); [|discriminate].
  destruct (loop S I seek_cur _ payload_sizes total_size skip_frames None g (b + 1) s2)
    as [[[cf g1] s3]|] eqn:E; cbn [pbind]; [|discriminate].
  destruct (loop_none _ _ _ _ _ _ _ _ _ _ E) as [-> Hk].
  intros H; injection H as <- _; exact Hk.
Qed.

(** With [total_size = 0] no handler moves the stream: [_game_start] seeks
    only when [total_size != 0]. *)
Lemma thing_stream_in_progress (c : Z) (cf cf' : option (Frames.Frame I)) (g g' : Game S I)
    (skip_frames : bool) (bytes_read : Z) (payload_sizes : dict) (s s' : list Byte.byte) :
  thing S I seek_cur c cf g skip_frames 0 bytes_read payload_sizes s = POk ((cf', g'), s') ->
  s' = s.
Proof.
  unfold thing, _game_start, _game_end, _frame_handler.
  rewrite andb_false_r.
  destruct (c =? 0x36); [intros Hk; injection Hk as _ _ <-; reflexivity|].
  destruct (existsb (Z.eqb c) [0x3A; 0x37; 0x38; 0x3B; 0x3C]); [discriminate|].
  destruct (c =? 0x39); [intros Hk; injection Hk as _ _ <-; reflexivity|].
  destruct (c =? 16); [intros Hk; injection Hk as _ _ <-; reflexivity|discriminate].
Qed.

Lemma parse_event_shrinks (payload_sizes : dict) (s s' : list Byte.byte) (b c : Z) :
  _parse_event payload_sizes s = POk ((b, c), s') -> (List.length s' < List.length s)%nat.
Proof.
  unfold _parse_event.
  destruct s as [|x t]; [discriminate|].
  rewrite unpack_uint8_cons; cbn [lift pbind].
  destruct (dict_get payload_sizes (byte_val x)) as [size|]; [|discriminate].
  unfold read.
  destruct (existsb (Z.eqb (byte_val x)) EVENT_TYPE_PARSE_keys); [discriminate|].
  intros Hk; injection Hk as _ _ <-.
  rewrite length_skipn; simpl; lia.
Qed.

Lemma loop_in_progress_fails (payload_sizes : dict) (skip_frames : bool) (fuel : nat) :
  forall cf g bytes_read s r,
  (List.length s < fuel)%nat ->
  loop S I seek_cur fuel payload_sizes 0 skip_frames cf g bytes_read s <> POk r.
Proof.
  induction fuel as [|fuel IH]; intros cf g bytes_read s r Hl; [lia|].
  cbn [loop]; cbn [Z.eqb orb].
  destruct (_parse_event payload_sizes s) as [[[b c] s1]|] eqn:E; cbn [pbind]; [|discriminate].
  apply parse_event_shrinks in E.
  destruct (thing S I seek_cur c cf g skip_frames 0 (bytes_read + b) payload_sizes s1)
    as [[[cf1 g1] s2]|] eqn:E2; cbn [pbind]; [|discriminate].
  apply thing_stream_in_progress in E2; subst s2.
  apply IH; lia.
Qed.

End DecoderRuns.

(** [_parse_event] raises for every code of [EVENT_TYPE_PARSE]: whatever the
    payload sizes, if the event after [Game Start] is a frame event or
    [Game End] and the declared length does not end the loop first, a
    decoded [Game Start] is followed by [ParseError]. *)
Theorem parse_events_frame_event_raises {S I : Type}
    (Start_parse : list Byte.byte -> result S)
    (seek_cur : Z -> list Byte.byte -> Parse.presult (list Byte.byte))
    (payload_sizes : Parse.dict) (total_size : Z) (skip_frames : bool)
    (g : ParseEvents.Game S I) (start_block : list Byte.byte) (st : S)
    (c : Byte.byte) (size : Z) (rest : list Byte.byte)
    (H36 : Parse.dict_get payload_sizes 0x36 = Some (Z.of_nat (List.length start_block)))
    (Hst : Start_parse start_block = Ok st)
    (Hc : In (byte_val c) Parse.EVENT_TYPE_PARSE_keys)
    (Hs : Parse.dict_get payload_sizes (byte_val c) = Some size)
    (Ht : total_size = 0 \/ Z.of_nat (List.length start_block) + 1 < total_size) :
  ParseEvents._parse_events S Start_parse I seek_cur payload_sizes total_size skip_frames g
    (event_stream start_block (c :: rest)) =
  Parse.PErr (Parse.ParseError Parse.TypeError).
Proof.
  rewrite (parse_events_keyed_first Start_parse seek_cur payload_sizes total_size
             skip_frames g start_block c size rest H36 Hc Hs Ht), Hst.
  reflexivity.
Qed.

Lemma parse_events_frame_event_raises_witness :
  ParseEvents._parse_events unit (fun _ => Ok tt) unit (fun _ s => Parse.POk s)
    (test_payload_sizes 2) 0 false (ParseEvents.Game_init unit unit)
    (event_stream [Byte.x03; Byte.x0e] [Byte.x39; Byte.x02]) =
  Parse.PErr (Parse.ParseError Parse.TypeError).
Proof.
  exact (parse_events_frame_event_raises (fun _ => Ok tt) (fun _ s => Parse.POk s)
           (test_payload_sizes 2) 0 false (ParseEvents.Game_init unit unit)
           [Byte.x03; Byte.x0e] tt Byte.x39 1 []
           eq_refl eq_refl ltac:(simpl; tauto) eq_refl (or_introl eq_refl)).
Defined.

(** When [_parse_events] returns, it has handed no frame to [Game._add_frame]
    and no decoded [Start] or [End] to [Game]: [frames] is as before, and
    [start] and [end] are as before or [None]. *)
Theorem parse_events_keeps_game {S I : Type}
    (Start_parse : list Byte.byte -> result S)
    (seek_cur : Z -> list Byte.byte -> Parse.presult (list Byte.byte))
    (payload_sizes : Parse.dict) (total_size : Z) (skip_frames : bool)
    (g g' : ParseEvents.Game S I) (stream stream' : list Byte.byte)
    (H : ParseEvents._parse_events S Start_parse I seek_cur payload_sizes total_size
           skip_frames g stream = Parse.POk (g', stream')) :
  ParseEvents.frames S I g' = ParseEvents.frames S I g /\
  (ParseEvents.start S I g' = ParseEvents.start S I g \/ ParseEvents.start S I g' = None) /\
  (ParseEvents.end_ S I g' = ParseEvents.end_ S I g \/ ParseEvents.end_ S I g' = None).
Proof. exact (parse_events_kept Start_parse seek_cur _ _ _ _ _ _ _ H). Qed.

(** The stream [0x36, 0x10, 0x10] with a declared length of 3: an empty
    [Game Start] and two message splitters. *)
Definition splitters_only : list Byte.byte := event_stream [] [Byte.x10; Byte.x10].

Lemma parse_events_keeps_game_witness :
  ParseEvents._parse_events unit (fun _ => Ok tt) unit (fun _ s => Parse.POk s)
    (test_payload_sizes 0) 3 false (ParseEvents.Game_init unit unit) splitters_only =
    Parse.POk (ParseEvents.Game_init unit unit, []) /\
  ParseEvents.frames unit unit (ParseEvents.Game_init unit unit) = [].
Proof.
  assert (E : ParseEvents._parse_events unit (fun _ => Ok tt) unit (fun _ s => Parse.POk s)
                (test_payload_sizes 0) 3 false (ParseEvents.Game_init unit unit) splitters_only =
              Parse.POk (ParseEvents.Game_init unit unit, [])) by (vm_compute; reflexivity).
  split; [exact E|].
  exact (proj1 (parse_events_keeps_game (fun _ => Ok tt) (fun _ s => Parse.POk s) _ _ _ _ _ _ _ E)).
Defined.

(** With a declared length of 0 (a replay still being written) the loop of
    [_parse_events] runs until an event raises or the stream runs out, and
    [unpack_uint8] raises on the missing code: [_parse_events] never
    returns normally. *)
Theorem parse_events_in_progress_never_returns {S I : Type}
    (Start_parse : list Byte.byte -> result S)
    (seek_cur : Z -> list Byte.byte -> Parse.presult (list Byte.byte))
    (payload_sizes : Parse.dict) (skip_frames : bool)
    (g : ParseEvents.Game S I) (stream : list Byte.byte) (r : ParseEvents.Game S I * list Byte.byte) :
  ParseEvents._parse_events S Start_parse I seek_cur payload_sizes 0 skip_frames g stream
    <> Parse.POk r.
Proof.
  unfold ParseEvents._parse_events.
  destruct (unpack_uint8 stream) as [[code s1]|]; cbn [Parse.lift Parse.pbind]; [|discriminate].
  destruct (negb (code =? 0x36)); [discriminate|].
  destruct (Parse.dict_get payload_sizes code) as [b|]; [|discriminate].
  destruct (read (Z.to_nat b) s1) as [block s2].
  destruct (Start_parse block); [|discriminate].
  destruct (ParseEvents.loop S I seek_cur _ payload_sizes 0 skip_frames None g (b + 1) s2)
    as [[[cf g1] s3]|] eqn:E; cbn [Parse.pbind]; [|discriminate].
  exfalso; eapply loop_in_progress_fails; [|exact E]; lia.
Qed.
